(** * The blog application: router procedures and the image container

    A shallow embedding of [src/server/api/routers/blogRouter.ts] and of the
    [ImageContainer] component.  The handlers are transcribed from the
    TypeScript source.  The calls they make into the Prisma client
    ([post.create], [post.findMany], [post.delete]) are given the semantics
    the Prisma client documents, over a store made of one list of rows per
    table.  What the Prisma schema decides (unique fields other than the ones
    the queries rely on, referential actions) is a parameter, [Schema]. *)

From Stdlib Require Import String Ascii List ZArith Lia Bool Arith.
From Stdlib Require Import DecimalString Permutation Sorted.
From Stdlib Require DecimalZ DecimalPos.
Import ListNotations.
Local Open Scope string_scope.
Local Open Scope list_scope.

Set Implicit Arguments.

(* ===================================================================== *)
(** ** JavaScript strings *)
(* ===================================================================== *)

Module Js.

(** [s.split(c)] for a one-character separator.  The result is never empty:
    the empty string splits into one empty piece, and two separators in a
    row give an empty piece between them.  (The separator used by the router
    is the space, a single code unit in UTF-16 and a single byte in UTF-8, so
    splitting the byte string cuts at the same places.) *)
Fixpoint split (c : ascii) (s : string) : list string :=
  match s with
  | EmptyString => [EmptyString]
  | String a rest =>
      if Ascii.eqb a c then EmptyString :: split c rest
      else match split c rest with
           | piece :: pieces => String a piece :: pieces
           | [] => [String a EmptyString]
           end
  end.

(** [pieces.join(sep)]. *)
Definition join (sep : string) (pieces : list string) : string :=
  String.concat sep pieces.

(** The string a JavaScript number turns into when it is concatenated to a
    string, for an integer below 10^21 in absolute value (every value of
    [Date.now()] is): its decimal digits, with a minus sign when negative. *)
Definition number_to_string (n : Z) : string :=
  NilZero.string_of_int (Z.to_int n).

(** [v || null] and the truth test of [v ? a : b] on a value that is a
    string or [undefined]: [undefined] and the empty string are falsy. *)
Definition truthy_string (v : option string) : bool :=
  match v with
  | None => false
  | Some s => negb (String.eqb s "")
  end.

Definition or_null (v : option string) : option string :=
  if truthy_string v then v else None.

Definition or_else (v : option string) (d : string) : string :=
  match v with
  | Some s => if truthy_string v then s else d
  | None => d
  end.

(** The truth test on a value that is an object or [null]/[undefined]. *)
Definition truthy_object (A : Type) (v : option A) : bool :=
  match v with
  | Some _ => true
  | None => false
  end.

End Js.

(* ===================================================================== *)
(** ** The persistence layer: rows, schema, store *)
(* ===================================================================== *)

(** Row identifiers are strings ([z.string()] in the procedures' inputs). *)
Definition Id := string.

(** The rows of the five tables the router touches, with the columns the
    router reads or writes.  A child row points to its post through an
    optional foreign key, so that every referential action of the schema
    language can be expressed. *)
Record User := mkUser { user_id : Id }.

Record Category := mkCategory {
  category_id : Id;
  category_name : string }.

Record Post := mkPost {
  post_id : Id;
  post_title : string;
  post_subtitle : string;
  post_body : string;
  post_image : option string;
  post_slug : string;
  post_createdAt : Z;
  post_authorId : Id;
  post_categoryId : Id }.

Record Tag := mkTag {
  tag_id : Id;
  tag_name : string;
  tag_postId : option Id }.

Record Comment := mkComment {
  comment_id : Id;
  comment_postId : option Id }.

Record Reaction := mkReaction {
  reaction_id : Id;
  reaction_postId : option Id }.

Record Store := mkStore {
  users : list User;
  categories : list Category;
  posts : list Post;
  tags : list Tag;
  comments : list Comment;
  reactions : list Reaction }.

(** What a relation does to the child rows when their post is deleted. *)
Inductive ReferentialAction := Cascade | Restrict | NoAction | SetNull.

(** The parts of the Prisma schema the router's behaviour depends on and
    the router's own code does not fix.  ([Category.category_name] is not
    here: [connectOrCreate] only accepts a unique field in its [where], so
    the source already says it is unique.) *)
Record Schema := mkSchema {
  slug_unique : bool;
  tag_name_unique : bool;
  comment_onDelete : ReferentialAction;
  reaction_onDelete : ReferentialAction;
  tag_onDelete : ReferentialAction }.

(** Modelled from the spec: the Prisma schema file is not among the sources;
    the spec says the application has "cascading deletes ... expressed
    declaratively through an ORM query builder", so the relations from a
    post's child rows to the post are taken to cascade.  The spec says
    nothing of unique constraints on slugs or tag names; none is assumed. *)
Definition spec_schema : Schema :=
  {| slug_unique := false;
     tag_name_unique := false;
     comment_onDelete := Cascade;
     reaction_onDelete := Cascade;
     tag_onDelete := Cascade |}.

(** Errors a procedure can end with. *)
Inductive PrismaCode :=
| P2002   (* unique constraint failed *)
| P2003   (* foreign key constraint failed *)
| P2025   (* a record the operation depends on was not found *)
| PValidation (* the query itself is malformed *).

Inductive TRPCCode := BAD_REQUEST | UNAUTHORIZED.

Inductive Error :=
| PrismaError (c : PrismaCode)
| TRPCError (c : TRPCCode).

Inductive result (A : Type) :=
| OK (a : A)
| Err (e : Error).
Arguments OK {A} a.
Arguments Err {A} e.

(** A database operation: it reads the store and either fails, leaving the
    caller with the store it had (the client runs a nested write in one
    transaction), or gives a value and the next store. *)
Definition Tx (A : Type) := Store -> result (A * Store).

Definition ret {A} (a : A) : Tx A := fun st => OK (a, st).
Definition throw {A} (e : Error) : Tx A := fun _ => Err e.
Definition bind {A B} (m : Tx A) (k : A -> Tx B) : Tx B :=
  fun st => match m st with
            | OK (a, st') => k a st'
            | Err e => Err e
            end.
Definition get_store : Tx Store := fun st => OK (st, st).

Notation "x <- m ;; k" := (bind m (fun x => k))
  (at level 61, m at next level, right associativity).
Notation "m ;;; k" := (bind m (fun _ => k))
  (at level 61, right associativity).

(** Values the environment supplies during one call: the JavaScript clock,
    the database clock (the default of [createdAt]) and the identifiers the
    database generates for new rows. *)
Record Env := mkEnv {
  date_now : Z;
  db_now : Z;
  new_post_id : Id;
  new_category_id : Id;
  new_tag_id : nat -> Id }.

Definition same_id (a b : Id) : bool := String.eqb a b.

Definition points_to (fk : option Id) (id : Id) : bool :=
  match fk with
  | Some i => same_id i id
  | None => false
  end.

(* ===================================================================== *)
(** ** The Prisma client calls the router makes *)
(* ===================================================================== *)

Module Prisma.

Definition set_categories (st : Store) (cs : list Category) : Store :=
  mkStore (users st) cs (posts st) (tags st) (comments st) (reactions st).
Definition set_posts (st : Store) (ps : list Post) : Store :=
  mkStore (users st) (categories st) ps (tags st) (comments st) (reactions st).
Definition set_tags (st : Store) (ts : list Tag) : Store :=
  mkStore (users st) (categories st) (posts st) ts (comments st) (reactions st).
Definition set_comments (st : Store) (cs : list Comment) : Store :=
  mkStore (users st) (categories st) (posts st) (tags st) cs (reactions st).
Definition set_reactions (st : Store) (rs : list Reaction) : Store :=
  mkStore (users st) (categories st) (posts st) (tags st) (comments st) rs.

Definition has_category_name (name : string) (c : Category) : bool :=
  String.eqb (category_name c) name.

(** [category: { connectOrCreate: { where: { category_name }, create: {
    category_name } } }]: the row with that name when there is one,
    otherwise a new row, whose generated identifier must be unused. *)
Definition category_connectOrCreate (env : Env) (name : string) : Tx Category :=
  fun st =>
    match find (has_category_name name) (categories st) with
    | Some c => OK (c, st)
    | None =>
        let c := mkCategory (new_category_id env) name in
        if existsb (fun c' => same_id (category_id c') (category_id c))
                   (categories st)
        then Err (PrismaError P2002)
        else OK (c, set_categories st (categories st ++ [c]))
    end.

(** [user: { connect: { id } }]: the user must exist; an [undefined] id
    leaves the [connect] without any field, which the client refuses. *)
Definition user_connect (id : option Id) : Tx Id :=
  fun st =>
    match id with
    | None => Err (PrismaError PValidation)
    | Some i =>
        if existsb (fun u => same_id (user_id u) i) (users st)
        then OK (i, st)
        else Err (PrismaError P2025)
    end.

(** Insertion of one post row, under the primary key and, when the schema
    has it, the unique constraint on the slug. *)
Definition post_insert (sc : Schema) (p : Post) : Tx unit :=
  fun st =>
    if existsb (fun q => same_id (post_id q) (post_id p)) (posts st)
    then Err (PrismaError P2002)
    else if slug_unique sc
              && existsb (fun q => String.eqb (post_slug q) (post_slug p))
                         (posts st)
    then Err (PrismaError P2002)
    else OK (tt, set_posts st (posts st ++ [p])).

Definition tag_insert (sc : Schema) (t : Tag) : Tx unit :=
  fun st =>
    if existsb (fun u => same_id (tag_id u) (tag_id t)) (tags st)
    then Err (PrismaError P2002)
    else if tag_name_unique sc
              && existsb (fun u => String.eqb (tag_name u) (tag_name t))
                         (tags st)
    then Err (PrismaError P2002)
    else OK (tt, set_tags st (tags st ++ [t])).

(** [tags: { createMany: { data } }] below a post: one new row per element
    of [data], in order, each pointing to the post.  There is no
    [skipDuplicates], so a row that breaks a constraint fails the call.
    [k] counts the rows already written, for the generated identifiers. *)
Fixpoint tag_createMany (sc : Schema) (env : Env) (post : Id) (k : nat)
    (data : list string) : Tx unit :=
  match data with
  | [] => ret tt
  | name :: rest =>
      tag_insert sc (mkTag (new_tag_id env k) name (Some post)) ;;;
      tag_createMany sc env post (S k) rest
  end.

(** The [data] of the router's [post.create]. *)
Record PostCreateData := mkPostCreateData {
  data_title : string;
  data_category : string;          (* category.connectOrCreate *)
  data_subtitle : string;
  data_image : option string;
  data_body : string;
  data_user : option Id;           (* user.connect.id *)
  data_slug : string;
  data_tags : list string }.       (* tags.createMany.data[].tag_name *)

(** A post with [include: { category: true }]. *)
Record PostWithCategory := mkPostWithCategory {
  the_post : Post;
  the_category : Category }.

(** [post.create({ include: { category: true }, data })]. *)
Definition post_create (sc : Schema) (env : Env) (d : PostCreateData)
    : Tx PostWithCategory :=
  c <- category_connectOrCreate env (data_category d) ;;
  author <- user_connect (data_user d) ;;
  let p := mkPost (new_post_id env) (data_title d) (data_subtitle d)
                  (data_body d) (data_image d) (data_slug d) (db_now env)
                  author (category_id c) in
  post_insert sc p ;;;
  tag_createMany sc env (post_id p) 0 (data_tags d) ;;;
  ret (mkPostWithCategory p c).

(** What a relation's referential action does to the child rows of the
    post [id]: remove them, refuse the deletion while there is one, or
    clear their foreign key. *)
Definition on_delete (A : Type) (action : ReferentialAction)
    (fk : A -> option Id) (clear : A -> A) (id : Id) (rows : list A)
    : result (list A) :=
  match action with
  | Cascade => OK (filter (fun r => negb (points_to (fk r) id)) rows)
  | Restrict | NoAction =>
      if existsb (fun r => points_to (fk r) id) rows
      then Err (PrismaError P2003)
      else OK rows
  | SetNull => OK (map (fun r => if points_to (fk r) id then clear r else r) rows)
  end.

Definition clear_comment (c : Comment) : Comment := mkComment (comment_id c) None.
Definition clear_reaction (r : Reaction) : Reaction := mkReaction (reaction_id r) None.
Definition clear_tag (t : Tag) : Tag := mkTag (tag_id t) (tag_name t) None.

(** A post with [include: { comment: true }]. *)
Record PostWithComments := mkPostWithComments {
  deleted_post : Post;
  deleted_post_comments : list Comment }.

(** [post.delete({ where: { id }, include: { comment: true } })].  The
    record is looked up first and its absence is an error; the result is
    typed as a value that may be tested for truth, and is the record. *)
Definition post_delete (sc : Schema) (id : Id) : Tx (option PostWithComments) :=
  fun st =>
    match find (fun p => same_id (post_id p) id) (posts st) with
    | None => Err (PrismaError P2025)
    | Some p =>
        match on_delete (comment_onDelete sc) comment_postId clear_comment id (comments st),
              on_delete (reaction_onDelete sc) reaction_postId clear_reaction id (reactions st),
              on_delete (tag_onDelete sc) tag_postId clear_tag id (tags st) with
        | OK cs, OK rs, OK ts =>
            OK (Some (mkPostWithComments p
                        (filter (fun c => points_to (comment_postId c) id) (comments st))),
                mkStore (users st) (categories st)
                        (filter (fun q => negb (same_id (post_id q) id)) (posts st))
                        ts cs rs)
        | Err e, _, _ => Err e
        | _, Err e, _ => Err e
        | _, _, Err e => Err e
        end
    end.

End Prisma.

(* ===================================================================== *)
(** ** Reading posts: [findMany] *)
(* ===================================================================== *)

Module Query.

(** [orderBy: { createdAt: "desc" }].  The database leaves the order of rows
    with equal [createdAt] open; this sort keeps them in table order. *)
Fixpoint insert_desc (p : Post) (l : list Post) : list Post :=
  match l with
  | [] => [p]
  | q :: l' =>
      if (post_createdAt q <=? post_createdAt p)%Z then p :: q :: l'
      else q :: insert_desc p l'
  end.

Definition orderBy_createdAt_desc (l : list Post) : list Post :=
  fold_right insert_desc [] l.

(** [take: n], or no [take] at all. *)
Definition take (n : option nat) (l : list Post) : list Post :=
  match n with
  | Some k => firstn k l
  | None => l
  end.

(** [post.findMany({ where, orderBy: { createdAt: "desc" }, take })],
    before the [select] or [include] shapes the rows. *)
Definition post_findMany (where_ : Post -> bool) (n : option nat)
    (st : Store) : list Post :=
  take n (orderBy_createdAt_desc (filter where_ (posts st))).

(** The relation [post.category]. *)
Definition category_of (st : Store) (p : Post) : option Category :=
  find (fun c => same_id (category_id c) (post_categoryId p)) (categories st).

(** [_count: { select: { comment: true, reaction: true } }]. *)
Record Count := mkCount {
  count_comment : nat;
  count_reaction : nat }.

Definition count_of (st : Store) (p : Post) : Count :=
  mkCount
    (length (filter (fun c => points_to (comment_postId c) (post_id p)) (comments st)))
    (length (filter (fun r => points_to (reaction_postId r) (post_id p)) (reactions st))).

(** The [select] of [getAllBlogs] and [getBlogsByCategory]. *)
Record BlogSummary := mkBlogSummary {
  sum_id : Id;
  sum_image : option string;
  sum_title : string;
  sum_subtitle : string;
  sum_createdAt : Z;
  sum_category : option Category;
  sum_count : Count }.

Definition select_summary (st : Store) (p : Post) : BlogSummary :=
  mkBlogSummary (post_id p) (post_image p) (post_title p) (post_subtitle p)
                (post_createdAt p) (category_of st p) (count_of st p).

(** The [include: { _count }] of [getBlogByUserId]. *)
Record PostWithCount := mkPostWithCount {
  counted_post : Post;
  counted : Count }.

Definition include_count (st : Store) (p : Post) : PostWithCount :=
  mkPostWithCount p (count_of st p).

(** [where: { category: { category_name } }]. *)
Definition in_category (st : Store) (name : string) (p : Post) : bool :=
  match category_of st p with
  | Some c => String.eqb (category_name c) name
  | None => false
  end.

(** [where: { authorId }]. *)
Definition by_author (userId : Id) (p : Post) : bool :=
  same_id (post_authorId p) userId.

End Query.

(* ===================================================================== *)
(** ** The remote-procedure layer *)
(* ===================================================================== *)

Record Session := mkSession { session_user_id : Id }.

Record Ctx := mkCtx { session : option Session }.

Inductive BaseProcedure := publicProcedure | protectedProcedure.

(** Modelled from the spec: [protectedProcedure] is defined in [../trpc],
    which is not among the sources.  The spec speaks of "authenticated user
    sessions"; a protected procedure runs its handler only when the context
    has a session and ends with [UNAUTHORIZED] otherwise, while a public
    procedure runs its handler in every context. *)
Definition run_procedure (I O : Type) (base : BaseProcedure)
    (handler : Ctx -> I -> Tx O) (ctx : Ctx) (input : I) : Tx O :=
  match base with
  | publicProcedure => handler ctx input
  | protectedProcedure =>
      match session ctx with
      | Some _ => handler ctx input
      | None => throw (TRPCError UNAUTHORIZED)
      end
  end.

Inductive ProcedureKind := query | mutation.

Record ProcedureDecl := mkProcedureDecl {
  proc_base : BaseProcedure;
  proc_kind : ProcedureKind;
  proc_has_input : bool }.

(** The object literal passed to [createTRPCRouter]: its keys, in order,
    with how each procedure is declared. *)
Definition blogRouter : list (string * ProcedureDecl) :=
  [ ("createNewBlog",      mkProcedureDecl protectedProcedure mutation true);
    ("getAllBlogs",        mkProcedureDecl protectedProcedure query false);
    ("getBlogsByCategory", mkProcedureDecl protectedProcedure query true);
    ("getBlogById",        mkProcedureDecl protectedProcedure query true);
    ("getBlogByUserId",    mkProcedureDecl protectedProcedure query true);
    ("updateBlogById",     mkProcedureDecl protectedProcedure mutation true);
    ("deleteBlogByBlogId", mkProcedureDecl protectedProcedure mutation true) ].

Definition procedure_names : list string := map fst blogRouter.

Record Response (A : Type) := mkResponse {
  status : nat;
  message : option string;
  data : A }.

(** The input of [createNewBlog], as the handler reads it: four strings and
    an [image] that may be missing. *)
Record CreateNewBlogInput := mkCreateNewBlogInput {
  title : string;
  subtitle : string;
  body : string;
  image : option string;
  category : string }.

Section Handlers.

Variable sc : Schema.
Variable env : Env.

(** The slug of a new post: [tagArray.join("-") + "-" + Date.now()]. *)
Definition make_slug (tagArray : list string) (now : Z) : string :=
  Js.join "-" tagArray ++ "-" ++ Js.number_to_string now.

Definition createNewBlog (ctx : Ctx) (input : CreateNewBlogInput)
    : Tx (Response Prisma.PostWithCategory) :=
  let tagArray := Js.split " " (title input) in
  let slug := make_slug tagArray (date_now env) in
  let authorId := option_map session_user_id (session ctx) in
  post <- Prisma.post_create sc env
            {| Prisma.data_title := title input;
               Prisma.data_category := category input;
               Prisma.data_subtitle := subtitle input;
               Prisma.data_image := Js.or_null (image input);
               Prisma.data_body := body input;
               Prisma.data_user := authorId;
               Prisma.data_slug := slug;
               Prisma.data_tags := map (fun i => i) tagArray |} ;;
  ret (mkResponse 201 None post).

Definition getAllBlogs (ctx : Ctx) (_ : unit)
    : Tx (Response (list Query.BlogSummary)) :=
  st <- get_store ;;
  let blogs := map (Query.select_summary st)
                   (Query.post_findMany (fun _ => true) None st) in
  ret (mkResponse 200 None blogs).

Definition getBlogsByCategory (ctx : Ctx) (category_name : string)
    : Tx (Response (list Query.BlogSummary)) :=
  st <- get_store ;;
  let blogs := map (Query.select_summary st)
                   (Query.post_findMany (Query.in_category st category_name)
                                        (Some 10) st) in
  ret (mkResponse 200 None blogs).

Definition getBlogByUserId (ctx : Ctx) (userId : Id)
    : Tx (Response (list Query.PostWithCount)) :=
  st <- get_store ;;
  let blogs := map (Query.include_count st)
                   (Query.post_findMany (Query.by_author userId) None st) in
  ret (mkResponse 200 (Some "BLOGS FOUND SUCCESSFULLY") blogs).

Definition deleteBlogByBlogId (ctx : Ctx) (id : Id) : Tx (Response unit) :=
  deleteBlog <- Prisma.post_delete sc id ;;
  if negb (Js.truthy_object deleteBlog) then throw (TRPCError BAD_REQUEST)
  else ret (mkResponse 201 (Some "BLOG DELETED SUCCESSFULLY") tt).

(** The procedures as the router exposes them. *)
Definition createNewBlog_procedure :=
  run_procedure protectedProcedure createNewBlog.
Definition getAllBlogs_procedure :=
  run_procedure protectedProcedure getAllBlogs.
Definition getBlogsByCategory_procedure :=
  run_procedure protectedProcedure getBlogsByCategory.
Definition getBlogByUserId_procedure :=
  run_procedure protectedProcedure getBlogByUserId.
Definition deleteBlogByBlogId_procedure :=
  run_procedure protectedProcedure deleteBlogByBlogId.

End Handlers.

(* ===================================================================== *)
(** ** The image container *)
(* ===================================================================== *)

Module ImageContainer.

Definition fallback_avatar : string :=
  "https://api.dicebear.com/6.x/adventurer-neutral/svg?seed=Tigger".

Inductive Gender := Male | Female.

(** The props.  [image] is declared a string; [None] stands for the
    [null] or [undefined] a caller may pass all the same. *)
Record Props := mkProps {
  className : string;
  gender : Gender;
  image : option string }.

(** The component's state, [imageLoadingError], starts [false]. *)
Definition State := bool.
Definition initial : State := false.

Definition handleImageLoadingError (_ : State) : State := true.

(** What the figure contains: a plain [<img>] or the framework's
    [<Image>], which reports a loading failure to [onError]. *)
Inductive Element :=
| img (src : string)
| Image (src : string) (onError : State -> State).

Definition render (imageLoadingError : State) (p : Props) : Element :=
  if imageLoadingError then img fallback_avatar
  else Image (Js.or_else (image p) fallback_avatar) handleImageLoadingError.

Definition src_of (e : Element) : string :=
  match e with
  | img s => s
  | Image s _ => s
  end.

(** One loading failure of what is on screen: only [<Image>] has a handler. *)
Definition load_failed (s : State) (p : Props) : State :=
  match render s p with
  | img _ => s
  | Image _ onError => onError s
  end.

(** The state after a run of re-renders (with possibly new props), the
    displayed image failing to load at some of them. *)
Fixpoint run (s : State) (events : list (Props * bool)) : State :=
  match events with
  | [] => s
  | (p, failed) :: rest => run (if failed then load_failed s p else s) rest
  end.

End ImageContainer.

(* ===================================================================== *)
(** ** Definitions used by the statements *)
(* ===================================================================== *)

(** The tag rows [createMany] writes below the post [post], the first of
    them being the [k]-th row of the call. *)
Fixpoint new_tag_rows (env : Env) (post : Id) (k : nat) (data : list string)
    : list Tag :=
  match data with
  | [] => []
  | name :: rest =>
      mkTag (new_tag_id env k) name (Some post) :: new_tag_rows env post (S k) rest
  end.

(** Every occurrence of [a] in the string becomes [b]. *)
Fixpoint replace_char (a b : ascii) (s : string) : string :=
  match s with
  | EmptyString => EmptyString
  | String x rest =>
      String (if Ascii.eqb x a then b else x) (replace_char a b rest)
  end.

Definition tags_named (name : string) (ts : list Tag) : list Tag :=
  filter (fun t => String.eqb (tag_name t) name) ts.

(** The statement that the call reuses the rows of the name [w]: it goes
    through and the rows of that name are the ones there were. *)
Definition tag_reused (sc : Schema) (env : Env) (ctx : Ctx)
    (input : CreateNewBlogInput) (st : Store) (w : string) : Prop :=
  exists r st',
    createNewBlog sc env ctx input st = OK (r, st') /\
    tags_named w (tags st') = tags_named w (tags st).

Definition unique_tags_schema : Schema :=
  {| slug_unique := false;
     tag_name_unique := true;
     comment_onDelete := Cascade;
     reaction_onDelete := Cascade;
     tag_onDelete := Cascade |}.

Definition lookup_procedure (name : string) : option ProcedureDecl :=
  option_map snd (find (fun entry => String.eqb (fst entry) name) blogRouter).

(** [p] may come before [q] in a listing by descending [createdAt]. *)
Definition not_older (p q : Post) : Prop :=
  (post_createdAt q <= post_createdAt p)%Z.

(** The posts of a category, said without the query: some row of the
    category table has the identifier the post's [categoryId] holds and has
    the name. *)
Definition of_category (st : Store) (name : string) (p : Post) : bool :=
  existsb (fun c => same_id (category_id c) (post_categoryId p)
                    && String.eqb (category_name c) name)
          (categories st).

(* ===================================================================== *)
(** ** Test data *)
(* ===================================================================== *)

Module Fixture.

Definition numbered (prefix : string) (k : nat) : Id :=
  (prefix ++ NilZero.string_of_uint (Nat.to_uint k))%string.

Definition alice : User := mkUser "u1".
Definition tech : Category := mkCategory "c1" "Tech".

Definition first_post : Post :=
  mkPost "p1" "hello" "sub" "text" None "hello-1690000000000"
         1690000000000 "u1" "c1".

Definition st0 : Store :=
  {| users := [alice];
     categories := [tech];
     posts := [first_post];
     tags := [mkTag "t1" "hello" (Some "p1")];
     comments := [mkComment "k1" (Some "p1"); mkComment "k2" (Some "p1")];
     reactions := [mkReaction "r1" (Some "p1")] |}.

Definition env0 : Env :=
  {| date_now := 1700000000000;
     db_now := 1700000000007;
     new_post_id := "p2";
     new_category_id := "c2";
     new_tag_id := numbered "n" |}.

Definition ctx0 : Ctx := mkCtx (Some (mkSession "u1")).

Definition input0 : CreateNewBlogInput :=
  {| title := "hello big  world";
     subtitle := "s";
     body := "b";
     image := Some "";
     category := "Tech" |}.

Definition input1 : CreateNewBlogInput :=
  {| title := "first steps";
     subtitle := "s";
     body := "b";
     image := Some "https://example.org/a.png";
     category := "Travel" |}.

Definition second_post : Post :=
  mkPost "p2" "hello big  world" "s" "b" None "hello-big--world-1700000000000"
         1700000000007 "u1" "c1".

Definition st1 : Store :=
  {| users := [alice];
     categories := [tech];
     posts := [first_post; second_post];
     tags := [mkTag "t1" "hello" (Some "p1");
              mkTag "n0" "hello" (Some "p2");
              mkTag "n1" "big" (Some "p2");
              mkTag "n2" "" (Some "p2");
              mkTag "n3" "world" (Some "p2")];
     comments := [mkComment "k1" (Some "p1"); mkComment "k2" (Some "p1")];
     reactions := [mkReaction "r1" (Some "p1")] |}.

Definition travel : Category := mkCategory "c2" "Travel".

Definition travel_post : Post :=
  mkPost "p2" "first steps" "s" "b" (Some "https://example.org/a.png")
         "first-steps-1700000000000" 1700000000007 "u1" "c2".

Definition st2 : Store :=
  {| users := [alice];
     categories := [tech; travel];
     posts := [first_post; travel_post];
     tags := [mkTag "t1" "hello" (Some "p1");
              mkTag "n0" "first" (Some "p2");
              mkTag "n1" "steps" (Some "p2")];
     comments := [mkComment "k1" (Some "p1"); mkComment "k2" (Some "p1")];
     reactions := [mkReaction "r1" (Some "p1")] |}.

End Fixture.

(** Twelve posts of one category and one author, made at times 1 to 12:
    the listing by category shows the ten of times 12 down to 3, the two
    other listings show the twelve. *)
Definition twelve_posts : Store :=
  {| users := [Fixture.alice];
     categories := [Fixture.tech];
     posts := map (fun k => mkPost (Fixture.numbered "p" k) "t" "s" "b" None
                                   "t-0" (Z.of_nat k) "u1" "c1")
                  (seq 1 12);
     tags := [];
     comments := [];
     reactions := [] |}.

(** The [createdAt] of the rows of a listing, in the order given. *)
Definition times (A : Type) (createdAt : A -> Z)
    (r : result (Response (list A) * Store)) : list Z :=
  match r with
  | OK (resp, _) => map createdAt (data resp)
  | Err _ => []
  end.

(* ===================================================================== *)
(** ** getBlogById *)
(* ===================================================================== *)

Module Detail.

(** [post.findFirst({ where, orderBy: { createdAt: "desc" } })]: the first
    row of the listing, or [null]. *)
Definition post_findFirst (where_ : Post -> bool) (st : Store) : option Post :=
  hd_error (Query.post_findMany where_ (Some 1) st).

(** The relations [post.user] and [post.reaction]. *)
Definition user_of (st : Store) (p : Post) : option User :=
  find (fun u => same_id (user_id u) (post_authorId p)) (users st).

Definition reactions_of (st : Store) (p : Post) : list Reaction :=
  filter (fun r => points_to (reaction_postId r) (post_id p)) (reactions st).

Section Select.

(** The two [select]s of the query keep columns the store does not spell
    out ([name], [email], [image], [gender] of the author; [type] and the
    reacting user of a reaction).  They are taken as given: what is shown of
    a user row, and what is shown of a reaction row in a store. *)
Variables UserView ReactionView : Type.
Variable select_user : User -> UserView.
Variable select_reaction : Store -> Reaction -> ReactionView.

(** A post with [include: { user: { select }, reaction: { select } }]. *)
Record BlogDetail := mkBlogDetail {
  detail_post : Post;
  detail_user : option UserView;
  detail_reaction : list ReactionView }.

Definition include_detail (st : Store) (p : Post) : BlogDetail :=
  mkBlogDetail p
    (option_map select_user (user_of st p))
    (map (select_reaction st) (reactions_of st p)).

Definition getBlogById (ctx : Ctx) (id : Id)
    : Tx (Response (option BlogDetail)) :=
  st <- get_store ;;
  let blog := option_map (include_detail st)
                (post_findFirst (fun p => same_id (post_id p) id) st) in
  ret (mkResponse 200 None blog).

Definition getBlogById_procedure :=
  run_procedure protectedProcedure getBlogById.

End Select.

End Detail.

(* ===================================================================== *)
(** ** Predicates on strings and stores *)
(* ===================================================================== *)

(** The number of occurrences of a character in a string, and whether
    there is one. *)
Fixpoint count_char (c : ascii) (s : string) : nat :=
  match s with
  | EmptyString => 0
  | String x rest => (if Ascii.eqb x c then 1 else 0) + count_char c rest
  end.

Definition has_char (c : ascii) (s : string) : bool :=
  negb (Nat.eqb (count_char c s) 0).

(** The integer a string of decimal digits, with an optional minus sign,
    stands for. *)
Definition parse_number (s : string) : option Z :=
  option_map Z.of_int (NilZero.int_of_string s).

(** The database's own guarantees on a store: primary keys and category
    names identify rows, and every foreign key names a row that is there. *)
Record well_formed (st : Store) : Prop := mkWellFormed {
  wf_user_ids : NoDup (map user_id (users st));
  wf_category_ids : NoDup (map category_id (categories st));
  wf_category_names : NoDup (map category_name (categories st));
  wf_post_ids : NoDup (map post_id (posts st));
  wf_tag_ids : NoDup (map tag_id (tags st));
  wf_comment_ids : NoDup (map comment_id (comments st));
  wf_reaction_ids : NoDup (map reaction_id (reactions st));
  wf_post_author :
    forall p, In p (posts st) -> In (post_authorId p) (map user_id (users st));
  wf_post_category :
    forall p, In p (posts st) ->
              In (post_categoryId p) (map category_id (categories st));
  wf_tag_post :
    forall t i, In t (tags st) -> tag_postId t = Some i ->
                In i (map post_id (posts st));
  wf_comment_post :
    forall c i, In c (comments st) -> comment_postId c = Some i ->
                In i (map post_id (posts st));
  wf_reaction_post :
    forall r i, In r (reactions st) -> reaction_postId r = Some i ->
                In i (map post_id (posts st)) }.

(** The identifiers [createMany] gives to its first [n] rows. *)
Definition new_tag_ids (env : Env) (n : nat) : list Id :=
  map (new_tag_id env) (seq 0 n).

(** The environment of a [createNewBlog] call offers identifiers the store
    does not use yet. *)
Record fresh_ids (env : Env) (st : Store) (n : nat) : Prop := mkFreshIds {
  fresh_post : ~ In (new_post_id env) (map post_id (posts st));
  fresh_category : ~ In (new_category_id env) (map category_id (categories st));
  fresh_tags : forall i, In i (new_tag_ids env n) -> ~ In i (map tag_id (tags st));
  fresh_tags_distinct : NoDup (new_tag_ids env n) }.

(* ===================================================================== *)
(** ** Runs on the test data *)
(* ===================================================================== *)

Example split_hello_world :
  Js.split " " "hello big  world" = ["hello"; "big"; ""; "world"].
Proof. reflexivity. Qed.

Example split_empty : Js.split " " "" = [""].
Proof. reflexivity. Qed.

Example number_to_string_now :
  Js.number_to_string 1700000000000 = "1700000000000".
Proof. reflexivity. Qed.

Example create_input0 :
  createNewBlog spec_schema Fixture.env0 Fixture.ctx0 Fixture.input0 Fixture.st0
  = OK (mkResponse 201 None
          (Prisma.mkPostWithCategory Fixture.second_post Fixture.tech),
        Fixture.st1).
Proof. vm_compute. reflexivity. Qed.

Example create_input1 :
  createNewBlog spec_schema Fixture.env0 Fixture.ctx0 Fixture.input1 Fixture.st0
  = OK (mkResponse 201 None
          (Prisma.mkPostWithCategory Fixture.travel_post Fixture.travel),
        Fixture.st2).
Proof. vm_compute. reflexivity. Qed.

(* ===================================================================== *)
(** ** Facts about the client calls *)
(* ===================================================================== *)

Lemma new_tag_rows_names env post k data :
  map tag_name (new_tag_rows env post k data) = data.
Proof.
  revert k; induction data as [|name rest IH]; intros k; simpl.
  - reflexivity.
  - now rewrite IH.
Qed.

Lemma new_tag_rows_length env post k data :
  length (new_tag_rows env post k data) = length data.
Proof.
  rewrite <- (new_tag_rows_names env post k data) at 2.
  now rewrite length_map.
Qed.

Lemma new_tag_rows_post env post k data t :
  In t (new_tag_rows env post k data) -> tag_postId t = Some post.
Proof.
  revert k; induction data as [|name rest IH]; intros k; simpl.
  - contradiction.
  - intros [<- | H]; [reflexivity | eauto].
Qed.

Ltac case_if :=
  match goal with
  | |- context [if ?b then _ else _] => destruct b eqn:?
  | H : context [if ?b then _ else _] |- _ => destruct b eqn:?
  end.

Lemma find_some_name name cs c :
  find (Prisma.has_category_name name) cs = Some c ->
  In c cs /\ category_name c = name.
Proof.
  intros H; apply find_some in H as [Hin Hname]; split; [exact Hin|].
  now apply String.eqb_eq.
Qed.

Lemma find_none_name name cs :
  find (Prisma.has_category_name name) cs = None ->
  ~ In name (map category_name cs).
Proof.
  intros H Hin; apply in_map_iff in Hin as (c & Hc & Hin).
  pose proof (find_none _ _ H _ Hin) as Hf.
  unfold Prisma.has_category_name in Hf; rewrite Hc, String.eqb_refl in Hf.
  discriminate.
Qed.

(** [connectOrCreate] either finds the first row with the name and writes
    nothing, or finds none and appends one row with the name. *)
Lemma category_connectOrCreate_inv env name st c st' :
  Prisma.category_connectOrCreate env name st = OK (c, st') ->
  category_name c = name /\
  ((find (Prisma.has_category_name name) (categories st) = Some c /\ st' = st) \/
   (find (Prisma.has_category_name name) (categories st) = None /\
    st' = Prisma.set_categories st (categories st ++ [c]))).
Proof.
  unfold Prisma.category_connectOrCreate.
  destruct (find _ (categories st)) as [c0|] eqn:Hfind.
  - intros [= <- <-]; split.
    + now apply find_some_name in Hfind.
    + now left.
  - case_if; [discriminate|].
    intros [= <- <-]; split; [reflexivity | now right].
Qed.

Lemma tag_createMany_inv sc env post data : forall k st u st',
  Prisma.tag_createMany sc env post k data st = OK (u, st') ->
  st' = Prisma.set_tags st (tags st ++ new_tag_rows env post k data).
Proof.
  induction data as [|name rest IH]; intros k st u st'; simpl.
  - intros [= _ <-]. rewrite app_nil_r. now destruct st.
  - unfold bind at 1, Prisma.tag_insert.
    case_if; [discriminate|]. case_if; [discriminate|].
    intros H; apply IH in H; subst st'; simpl.
    unfold Prisma.set_tags; simpl. now rewrite <- app_assoc.
Qed.

(** What a successful [post.create] has written: one post row, one tag row
    per element of [data.tags], and at most one category row. *)
Lemma post_create_inv sc env d st pc st' :
  Prisma.post_create sc env d st = OK (pc, st') ->
  exists author st1,
    Prisma.category_connectOrCreate env (Prisma.data_category d) st
      = OK (Prisma.the_category pc, st1) /\
    Prisma.data_user d = Some author /\
    Prisma.the_post pc =
      mkPost (new_post_id env) (Prisma.data_title d) (Prisma.data_subtitle d)
             (Prisma.data_body d) (Prisma.data_image d) (Prisma.data_slug d)
             (db_now env) author (category_id (Prisma.the_category pc)) /\
    st' = mkStore (users st) (categories st1)
                  (posts st ++ [Prisma.the_post pc])
                  (tags st ++ new_tag_rows env (new_post_id env) 0 (Prisma.data_tags d))
                  (comments st) (reactions st).
Proof.
  unfold Prisma.post_create, bind at 1.
  destruct (Prisma.category_connectOrCreate _ _ st) as [[c st1]|e] eqn:Hc;
    [|discriminate].
  assert (Hst1 : users st1 = users st /\ posts st1 = posts st /\
                 tags st1 = tags st /\ comments st1 = comments st /\
                 reactions st1 = reactions st).
  { apply category_connectOrCreate_inv in Hc as [_ [[_ ->] | [_ ->]]];
      simpl; repeat split. }
  destruct Hst1 as (Hu & Hp & Ht & Hcm & Hr).
  unfold bind at 1, Prisma.user_connect.
  destruct (Prisma.data_user d) as [author|]; [|discriminate].
  case_if; [|discriminate].
  unfold bind at 1, Prisma.post_insert.
  case_if; [discriminate|]. case_if; [discriminate|].
  unfold bind at 1.
  destruct (Prisma.tag_createMany _ _ _ _ _ _) as [[u st2]|e] eqn:Htags;
    [|discriminate].
  intros [= <- <-]; exists author, st1; simpl.
  apply tag_createMany_inv in Htags; subst st2; simpl.
  do 3 (split; [reflexivity|]).
  unfold Prisma.set_tags, Prisma.set_posts; simpl.
  now rewrite Hu, Hp, Ht, Hcm, Hr.
Qed.

Lemma createNewBlog_inv sc env ctx input st r st' :
  createNewBlog sc env ctx input st = OK (r, st') ->
  status r = 201 /\
  Prisma.post_create sc env
    {| Prisma.data_title := title input;
       Prisma.data_category := category input;
       Prisma.data_subtitle := subtitle input;
       Prisma.data_image := Js.or_null (image input);
       Prisma.data_body := body input;
       Prisma.data_user := option_map session_user_id (session ctx);
       Prisma.data_slug := make_slug (Js.split " " (title input)) (date_now env);
       Prisma.data_tags := Js.split " " (title input) |} st
  = OK (data r, st').
Proof.
  unfold createNewBlog, bind. rewrite map_id.
  destruct (Prisma.post_create _ _ _ _) as [[pc st1]|e]; [|discriminate].
  unfold ret; intros [= <- <-]; split; reflexivity.
Qed.

(** The new post is in the store once the call has succeeded. *)
Lemma createNewBlog_stored sc env ctx input st r st' :
  createNewBlog sc env ctx input st = OK (r, st') ->
  posts st' = posts st ++ [Prisma.the_post (data r)].
Proof.
  intros H; apply createNewBlog_inv in H as [_ H].
  apply post_create_inv in H as (author & st1 & _ & _ & _ & ->).
  reflexivity.
Qed.

(* ===================================================================== *)
(** ** createNewBlog: the slug *)
(* ===================================================================== *)

Lemma split_not_nil c s : Js.split c s <> [].
Proof.
  destruct s as [|a rest]; simpl; [discriminate|].
  destruct (Ascii.eqb a c); [discriminate|].
  destruct (Js.split c rest); discriminate.
Qed.

Lemma join_cons sep x l :
  l <> [] -> Js.join sep (x :: l) = (x ++ sep ++ Js.join sep l)%string.
Proof. destruct l; [contradiction | reflexivity]. Qed.

(** Splitting on a character and joining with another one replaces the
    first by the second, everywhere: nothing else of the title changes. *)
Lemma join_split_replace a b s :
  Js.join (String b EmptyString) (Js.split a s) = replace_char a b s.
Proof.
  induction s as [|x rest IH]; simpl; [reflexivity|].
  pose proof (split_not_nil a rest) as Hne.
  destruct (Ascii.eqb x a).
  - rewrite join_cons, IH by assumption. reflexivity.
  - destruct (Js.split a rest) as [|p ps] eqn:E; [contradiction|].
    rewrite <- IH. destruct ps as [|q qs]; [reflexivity|].
    rewrite !join_cons by discriminate. reflexivity.
Qed.

(** C1. For every successful [createNewBlog] call, the post that is stored
    carries as slug the title split on the space and joined with "-",
    then "-", then the decimal digits of [Date.now()].  The slug is this
    function of the title and the clock alone: the store is not consulted,
    so any other store gives the same slug for the same title and clock. *)
Theorem createNewBlog_slug sc env ctx input st r st' :
  createNewBlog sc env ctx input st = OK (r, st') ->
  In (Prisma.the_post (data r)) (posts st') /\
  post_slug (Prisma.the_post (data r))
    = (Js.join "-" (Js.split " " (title input)) ++ "-"
       ++ Js.number_to_string (date_now env))%string /\
  forall sc2 ctx2 input2 st2 r2 st2',
    title input2 = title input ->
    createNewBlog sc2 env ctx2 input2 st2 = OK (r2, st2') ->
    post_slug (Prisma.the_post (data r2)) = post_slug (Prisma.the_post (data r)).
Proof.
  intros H.
  assert (Hslug : forall sc0 ctx0 input0 st0 r0 st0',
             createNewBlog sc0 env ctx0 input0 st0 = OK (r0, st0') ->
             post_slug (Prisma.the_post (data r0))
             = make_slug (Js.split " " (title input0)) (date_now env)).
  { intros sc0 ctx0 input0 st0 r0 st0' H0.
    apply createNewBlog_inv in H0 as [_ H0].
    apply post_create_inv in H0 as (author & st1 & _ & _ & -> & _).
    reflexivity. }
  split; [|split].
  - rewrite (createNewBlog_stored _ _ _ _ _ H).
    apply in_or_app; right; now left.
  - now rewrite (Hslug _ _ _ _ _ _ H).
  - intros sc2 ctx2 input2 st2 r2 st2' Ht H2.
    rewrite (Hslug _ _ _ _ _ _ H), (Hslug _ _ _ _ _ _ H2), Ht. reflexivity.
Qed.

Lemma createNewBlog_slug_witness :
  In Fixture.second_post (posts Fixture.st1) /\
  post_slug Fixture.second_post = "hello-big--world-1700000000000".
Proof.
  pose proof (createNewBlog_slug _ _ _ _ _ create_input0) as (H1 & H2 & _).
  split; [exact H1 | exact H2].
Defined.

(** With no unique constraint on the slug in the schema, two posts of the
    same title made within one millisecond carry the same slug. *)
Example slug_collision :
  exists r st',
    createNewBlog spec_schema
      (mkEnv 1690000000000 1700000000007 "p2" "c2" (Fixture.numbered "n"))
      Fixture.ctx0
      (mkCreateNewBlogInput "hello" "s" "b" None "Tech") Fixture.st0
    = OK (r, st') /\
    map post_slug (posts st') = ["hello-1690000000000"; "hello-1690000000000"].
Proof. eexists; eexists; split; [vm_compute; reflexivity | reflexivity]. Qed.

(* ===================================================================== *)
(** ** createNewBlog: the image *)
(* ===================================================================== *)

(** C10. A successful [createNewBlog] stores the post with no image
    ([null]) when the input has no image or the empty string, and with
    exactly the input's string otherwise. *)
Theorem createNewBlog_image sc env ctx input st r st' :
  createNewBlog sc env ctx input st = OK (r, st') ->
  In (Prisma.the_post (data r)) (posts st') /\
  (image input = None \/ image input = Some ""%string ->
   post_image (Prisma.the_post (data r)) = None) /\
  (forall s, image input = Some s -> s <> ""%string ->
   post_image (Prisma.the_post (data r)) = Some s).
Proof.
  intros H. split.
  - rewrite (createNewBlog_stored _ _ _ _ _ H).
    apply in_or_app; right; now left.
  - apply createNewBlog_inv in H as [_ H].
    apply post_create_inv in H as (author & st1 & _ & _ & -> & _); simpl.
    split.
    + intros [-> | ->]; reflexivity.
    + intros s -> Hs. unfold Js.or_null, Js.truthy_string.
      destruct (String.eqb_spec s ""); [contradiction | reflexivity].
Qed.

Lemma createNewBlog_image_witness :
  post_image Fixture.second_post = None /\
  post_image Fixture.travel_post = Some "https://example.org/a.png"%string.
Proof.
  split.
  - apply (createNewBlog_image _ _ _ _ _ create_input0).
    right; reflexivity.
  - apply (createNewBlog_image _ _ _ _ _ create_input1).
    + reflexivity.
    + discriminate.
Defined.

(* ===================================================================== *)
(** ** createNewBlog: the category *)
(* ===================================================================== *)

Lemma NoDup_map_app_one (A B : Type) (f : A -> B) l x :
  NoDup (map f l) -> ~ In (f x) (map f l) -> NoDup (map f (l ++ [x])).
Proof.
  intros Hnd Hx. rewrite map_app; simpl.
  apply NoDup_app; [exact Hnd | repeat constructor; intros [] | ].
  intros b Hb [<- | []]. contradiction.
Qed.

(** C3. A successful [createNewBlog] writes the category as an upsert on
    [category_name]: the post is connected to a row of that name; when a row
    of that name was already there the category table is left as it was and
    the post is connected to a row that was there, otherwise exactly one row
    of that name is appended.  A table in which no two rows share a name
    stays so. *)
Theorem createNewBlog_category_upsert sc env ctx input st r st' :
  createNewBlog sc env ctx input st = OK (r, st') ->
  let c := Prisma.the_category (data r) in
  category_name c = category input /\
  In c (categories st') /\
  post_categoryId (Prisma.the_post (data r)) = category_id c /\
  (In (category input) (map category_name (categories st)) ->
   categories st' = categories st /\ In c (categories st)) /\
  (~ In (category input) (map category_name (categories st)) ->
   categories st' = categories st ++ [c]) /\
  (NoDup (map category_name (categories st)) ->
   NoDup (map category_name (categories st'))).
Proof.
  intros H c; subst c.
  apply createNewBlog_inv in H as [_ H].
  apply post_create_inv in H as (author & st1 & Hc & _ & Hp & ->).
  cbn [Prisma.data_category] in Hc.
  apply category_connectOrCreate_inv in Hc as [Hname Hcases].
  rewrite Hp; cbn [post_categoryId categories].
  split; [exact Hname|].
  destruct Hcases as [[Hfind ->] | [Hfind ->]].
  - apply find_some_name in Hfind as [Hin _].
    split; [exact Hin|].
    split; [reflexivity|].
    split; [intros _; split; [reflexivity | exact Hin]|].
    split; [|intros Hnd; exact Hnd].
    intros Hno; exfalso; apply Hno, in_map_iff; eauto.
  - apply find_none_name in Hfind. cbn [Prisma.set_categories categories].
    split; [apply in_or_app; right; now left|].
    split; [reflexivity|].
    split; [intros Hin; contradiction|].
    split; [reflexivity|].
    intros Hnd. apply NoDup_map_app_one; [exact Hnd | now rewrite Hname].
Qed.

Lemma createNewBlog_category_upsert_witness :
  categories Fixture.st1 = categories Fixture.st0 /\
  categories Fixture.st2 = categories Fixture.st0 ++ [Fixture.travel].
Proof.
  split.
  - apply (createNewBlog_category_upsert _ _ _ _ _ create_input0).
    left; reflexivity.
  - apply (createNewBlog_category_upsert _ _ _ _ _ create_input1).
    intros [H | []]; discriminate.
Defined.

(* ===================================================================== *)
(** ** createNewBlog: the tags *)
(* ===================================================================== *)

(** The store has a tag named "hello" and the title starts with "hello".
    Without a unique constraint on [tag_name] the call adds a second row
    named "hello"; with one, the call fails on the constraint.  Either way
    the row that was there is not reused. *)
Lemma createNewBlog_tags_not_upserted :
  In "hello"%string (Js.split " " (title Fixture.input0)) /\
  tags_named "hello" (tags Fixture.st0) = [mkTag "t1" "hello" (Some "p1"%string)] /\
  ~ tag_reused spec_schema Fixture.env0 Fixture.ctx0 Fixture.input0
      Fixture.st0 "hello" /\
  ~ tag_reused unique_tags_schema Fixture.env0 Fixture.ctx0 Fixture.input0
      Fixture.st0 "hello".
Proof.
  split; [left; reflexivity|]. split; [reflexivity|]. split.
  - intros (r & st' & Hrun & Hsame).
    rewrite create_input0 in Hrun. injection Hrun as _ <-.
    vm_compute in Hsame. discriminate.
  - intros (r & st' & Hrun & _).
    vm_compute in Hrun. discriminate.
Qed.

Lemma tags_named_app w l1 l2 :
  tags_named w (l1 ++ l2) = tags_named w l1 ++ tags_named w l2.
Proof. apply filter_app. Qed.

Lemma tags_named_new_rows w env post data : forall k,
  length (tags_named w (new_tag_rows env post k data)) = count_occ string_dec data w.
Proof.
  induction data as [|name rest IH]; intros k; simpl; [reflexivity|].
  destruct (string_dec name w) as [->|Hne].
  - rewrite String.eqb_refl; simpl. now rewrite IH.
  - apply String.eqb_neq in Hne. rewrite Hne. apply IH.
Qed.

(** C4, as the code has it.  A successful [createNewBlog] appends to the tag
    table one new row per piece of [title.split(" ")], in order, named after
    the piece and pointing to the new post.  The rows that were there stay
    and none is reused: for every name, the rows of that name are the old
    ones followed by as many new ones as the name has occurrences among the
    pieces. *)
Theorem createNewBlog_tags_created sc env ctx input st r st' :
  createNewBlog sc env ctx input st = OK (r, st') ->
  let pieces := Js.split " " (title input) in
  exists rows,
    tags st' = tags st ++ rows /\
    map tag_name rows = pieces /\
    (forall t, In t rows -> tag_postId t = Some (post_id (Prisma.the_post (data r)))) /\
    (forall w, tags_named w (tags st') = tags_named w (tags st) ++ tags_named w rows) /\
    (forall w, length (tags_named w rows) = count_occ string_dec pieces w).
Proof.
  intros H pieces; subst pieces.
  apply createNewBlog_inv in H as [_ H].
  apply post_create_inv in H as (author & st1 & _ & _ & Hp & ->).
  cbn [Prisma.data_tags tags]. rewrite Hp; cbn [post_id].
  exists (new_tag_rows env (new_post_id env) 0 (Js.split " " (title input))).
  split; [reflexivity|].
  split; [apply new_tag_rows_names|].
  split; [intros t Ht; eapply new_tag_rows_post; eassumption|].
  split; [intros w; apply tags_named_app|].
  intros w; apply tags_named_new_rows.
Qed.

Lemma createNewBlog_tags_created_witness :
  exists rows,
    tags Fixture.st1 = tags Fixture.st0 ++ rows /\
    map tag_name rows = ["hello"; "big"; ""; "world"]%string.
Proof.
  destruct (createNewBlog_tags_created _ _ _ _ _ create_input0)
    as (rows & H1 & H2 & _).
  exists rows; split; [exact H1 | exact H2].
Defined.

(* ===================================================================== *)
(** ** deleteBlogByBlogId *)
(* ===================================================================== *)

Lemma same_id_true a b : same_id a b = true <-> a = b.
Proof. apply String.eqb_eq. Qed.

Lemma same_id_false a b : same_id a b = false <-> a <> b.
Proof. apply String.eqb_neq. Qed.

Lemma points_to_true fk id : points_to fk id = true <-> fk = Some id.
Proof.
  destruct fk as [i|]; simpl.
  - rewrite same_id_true. split; [now intros -> | now intros [= ->]].
  - split; discriminate.
Qed.

Lemma find_post_exists id ps :
  (exists p, In p ps /\ post_id p = id) ->
  exists p, find (fun p => same_id (post_id p) id) ps = Some p.
Proof.
  intros (p & Hin & Hid).
  destruct (find _ ps) as [q|] eqn:Hfind; [now exists q|].
  pose proof (find_none _ _ Hfind _ Hin) as Hf; simpl in Hf.
  apply same_id_false in Hf. contradiction.
Qed.

Lemma find_post_absent id ps :
  (forall p, In p ps -> post_id p <> id) ->
  find (fun p => same_id (post_id p) id) ps = None.
Proof.
  intros Habs. destruct (find _ ps) as [q|] eqn:Hfind; [|reflexivity].
  apply find_some in Hfind as [Hin Hid]. apply same_id_true in Hid.
  now apply Habs in Hin.
Qed.

(** The client's [delete] never succeeds with an empty result. *)
Lemma post_delete_returns_record sc id st v st' :
  Prisma.post_delete sc id st = OK (v, st') ->
  exists p cs, v = Some (Prisma.mkPostWithComments p cs) /\
               In p (posts st) /\ post_id p = id.
Proof.
  unfold Prisma.post_delete.
  destruct (find _ (posts st)) as [p|] eqn:Hfind; [|discriminate].
  apply find_some in Hfind as [Hin Hid]. apply same_id_true in Hid.
  destruct (Prisma.on_delete (comment_onDelete sc) comment_postId Prisma.clear_comment id (comments st));
    destruct (Prisma.on_delete (reaction_onDelete sc) reaction_postId Prisma.clear_reaction id (reactions st));
    destruct (Prisma.on_delete (tag_onDelete sc) tag_postId Prisma.clear_tag id (tags st)); try discriminate.
  intros [= <- _]. eauto.
Qed.

(** Its failures are the client's own errors. *)
Lemma post_delete_error sc id st e :
  Prisma.post_delete sc id st = Err e ->
  e = PrismaError P2025 \/ e = PrismaError P2003.
Proof.
  assert (Hon : forall (A : Type) action fk clear (rows : list A) e0,
             Prisma.on_delete action fk clear id rows = Err e0 ->
             e0 = PrismaError P2003).
  { intros A action fk clear rows e0; unfold Prisma.on_delete.
    destruct action; try discriminate; case_if; try discriminate;
      now intros [= <-]. }
  unfold Prisma.post_delete.
  destruct (find _ (posts st)) as [p|]; [|intros [= <-]; now left].
  destruct (Prisma.on_delete (comment_onDelete sc) comment_postId Prisma.clear_comment id (comments st)) eqn:E1;
    destruct (Prisma.on_delete (reaction_onDelete sc) reaction_postId Prisma.clear_reaction id (reactions st)) eqn:E2;
    destruct (Prisma.on_delete (tag_onDelete sc) tag_postId Prisma.clear_tag id (tags st)) eqn:E3;
    try discriminate; intros [= <-]; right; eauto.
Qed.

(** C8. The [BAD_REQUEST] branch of [deleteBlogByBlogId] is never taken:
    whenever the client's [delete] returns, what it returns passes the truth
    test.  So the handler never ends with [BAD_REQUEST] (nor does the
    procedure built on it), on an identifier that names no post it ends
    with the client's record-not-found error, every error it ends with is
    the client's, and every response it gives has status 201. *)
Theorem deleteBlogByBlogId_guard_unreachable sc ctx id st :
  (forall v st', Prisma.post_delete sc id st = OK (v, st') ->
                 Js.truthy_object v = true) /\
  deleteBlogByBlogId sc ctx id st <> Err (TRPCError BAD_REQUEST) /\
  deleteBlogByBlogId_procedure sc ctx id st <> Err (TRPCError BAD_REQUEST) /\
  ((forall p, In p (posts st) -> post_id p <> id) ->
   deleteBlogByBlogId sc ctx id st = Err (PrismaError P2025)) /\
  (forall e, deleteBlogByBlogId sc ctx id st = Err e -> exists c, e = PrismaError c) /\
  (forall r st', deleteBlogByBlogId sc ctx id st = OK (r, st') -> status r = 201).
Proof.
  assert (Herr : forall e, deleteBlogByBlogId sc ctx id st = Err e ->
                           exists c, e = PrismaError c).
  { intros e. unfold deleteBlogByBlogId, bind.
    destruct (Prisma.post_delete sc id st) as [[v st1]|e1] eqn:Hdel.
    - apply post_delete_returns_record in Hdel as (p & cs & -> & _).
      simpl. discriminate.
    - intros [= <-]. apply post_delete_error in Hdel as [-> | ->]; eauto. }
  split; [|split; [|split; [|split; [|split]]]].
  - intros v st' H.
    apply post_delete_returns_record in H as (p & cs & -> & _). reflexivity.
  - intros H. apply Herr in H as (c & H). discriminate.
  - unfold deleteBlogByBlogId_procedure, run_procedure.
    destruct (session ctx).
    + intros H. apply Herr in H as (c & H). discriminate.
    + discriminate.
  - intros Habs. unfold deleteBlogByBlogId, bind, Prisma.post_delete.
    now rewrite (find_post_absent _ Habs).
  - exact Herr.
  - intros r st'. unfold deleteBlogByBlogId, bind.
    destruct (Prisma.post_delete sc id st) as [[v st1]|e1]; [|discriminate].
    destruct (negb (Js.truthy_object v)); [discriminate|].
    now intros [= <- _].
Qed.

(** Under the cascading relations the spec describes, deleting a post that
    exists goes through and takes the post's child rows with it. *)
Lemma post_delete_cascade sc id st :
  comment_onDelete sc = Cascade ->
  reaction_onDelete sc = Cascade ->
  tag_onDelete sc = Cascade ->
  (exists p, In p (posts st) /\ post_id p = id) ->
  exists v,
    Prisma.post_delete sc id st
    = OK (Some v,
          mkStore (users st) (categories st)
            (filter (fun q => negb (same_id (post_id q) id)) (posts st))
            (filter (fun t => negb (points_to (tag_postId t) id)) (tags st))
            (filter (fun c => negb (points_to (comment_postId c) id)) (comments st))
            (filter (fun r => negb (points_to (reaction_postId r) id)) (reactions st))).
Proof.
  intros Hc Hr Ht Hex. apply find_post_exists in Hex as [p Hfind].
  unfold Prisma.post_delete. rewrite Hfind, Hc, Hr, Ht. simpl. eauto.
Qed.

(** C2. Where the relations from a post's child rows to the post cascade,
    every [deleteBlogByBlogId] call whose id names an existing post goes
    through and removes from the store the post and all the comments that
    point to it; the other posts and the comments of other posts stay. *)
Theorem deleteBlogByBlogId_cascades sc ctx id st :
  comment_onDelete sc = Cascade ->
  reaction_onDelete sc = Cascade ->
  tag_onDelete sc = Cascade ->
  (exists p, In p (posts st) /\ post_id p = id) ->
  exists r st',
    deleteBlogByBlogId sc ctx id st = OK (r, st') /\
    (forall p, In p (posts st') <-> In p (posts st) /\ post_id p <> id) /\
    (forall c, In c (comments st') <->
               In c (comments st) /\ comment_postId c <> Some id).
Proof.
  intros Hc Hr Ht Hex.
  destruct (post_delete_cascade sc st Hc Hr Ht Hex) as [v Hdel].
  unfold deleteBlogByBlogId, bind. rewrite Hdel. simpl.
  eexists; eexists; split; [reflexivity|]. simpl. split.
  - intros p. rewrite filter_In, negb_true_iff, same_id_false. reflexivity.
  - intros c. rewrite filter_In, negb_true_iff.
    rewrite <- points_to_true, not_true_iff_false. reflexivity.
Qed.

Lemma deleteBlogByBlogId_cascades_witness :
  exists r st',
    deleteBlogByBlogId spec_schema Fixture.ctx0 "p1" Fixture.st1 = OK (r, st') /\
    (forall p, In p (posts st') <-> In p (posts Fixture.st1) /\ post_id p <> "p1"%string) /\
    (forall c, In c (comments st') <->
               In c (comments Fixture.st1) /\ comment_postId c <> Some "p1"%string).
Proof.
  apply (@deleteBlogByBlogId_cascades spec_schema Fixture.ctx0 "p1" Fixture.st1);
    try reflexivity.
  exists Fixture.first_post; split; [left; reflexivity | reflexivity].
Defined.

(** On the test store: the first post goes with its two comments, its
    reaction and its tag; the second post and its tags stay. *)
Example delete_first_post :
  deleteBlogByBlogId spec_schema Fixture.ctx0 "p1" Fixture.st1
  = OK (mkResponse 201 (Some "BLOG DELETED SUCCESSFULLY"%string) tt,
        {| users := [Fixture.alice];
           categories := [Fixture.tech];
           posts := [Fixture.second_post];
           tags := [mkTag "n0" "hello" (Some "p2"%string);
                    mkTag "n1" "big" (Some "p2"%string);
                    mkTag "n2" "" (Some "p2"%string);
                    mkTag "n3" "world" (Some "p2"%string)];
           comments := [];
           reactions := [] |}).
Proof. vm_compute. reflexivity. Qed.

(** The cascade is the schema's: the query itself only asks for the
    comments to be returned.  Were the comment relation restricting, the same
    call would be refused while the post has comments. *)
Example delete_restricted :
  deleteBlogByBlogId
    (mkSchema false false Restrict Cascade Cascade) Fixture.ctx0 "p1" Fixture.st1
  = Err (PrismaError P2003).
Proof. vm_compute. reflexivity. Qed.

(* ===================================================================== *)
(** ** The router's procedures *)
(* ===================================================================== *)

Lemma lookup_procedure_in name :
  lookup_procedure name <> None <-> In name procedure_names.
Proof.
  unfold lookup_procedure, procedure_names.
  induction blogRouter as [|[n d] l IH]; simpl.
  - split; [intros H; now contradiction H | intros []].
  - destruct (String.eqb_spec n name) as [-> | Hne]; simpl.
    + split; [now left | discriminate].
    + rewrite IH. split; [now right | now intros [? | ?]].
Qed.

(** C5. The blog router has exactly seven procedures, each under its own
    name: create ([createNewBlog]), list ([getAllBlogs]), filter by category
    ([getBlogsByCategory]), fetch by id ([getBlogById]), fetch by author
    ([getBlogByUserId]), update ([updateBlogById]) and delete
    ([deleteBlogByBlogId]); the three that write are mutations, the four
    that read are queries, and no other name is a procedure. *)
Theorem blogRouter_procedures :
  procedure_names
    = ["createNewBlog"; "getAllBlogs"; "getBlogsByCategory"; "getBlogById";
       "getBlogByUserId"; "updateBlogById"; "deleteBlogByBlogId"]%string /\
  NoDup procedure_names /\
  (forall name,
     lookup_procedure name <> None <->
     name = "createNewBlog"%string \/ name = "getAllBlogs"%string \/
     name = "getBlogsByCategory"%string \/ name = "getBlogById"%string \/
     name = "getBlogByUserId"%string \/ name = "updateBlogById"%string \/
     name = "deleteBlogByBlogId"%string) /\
  map (fun entry => proc_kind (snd entry)) blogRouter
    = [mutation; query; query; query; query; mutation; mutation].
Proof.
  split; [reflexivity|]. split; [|split; [|reflexivity]].
  - unfold procedure_names; simpl.
    repeat (constructor; [simpl; intuition discriminate|]). constructor.
  - intros name. rewrite lookup_procedure_in.
    unfold procedure_names; simpl. intuition congruence.
Qed.

(** C6. Each of the seven procedures of the blog router is declared on
    [protectedProcedure], and a procedure so declared, whatever its handler,
    does not run it for a context without a session: the call ends with
    [UNAUTHORIZED] and the store is the one there was.  With a session the
    handler runs. *)
Theorem blogRouter_protected :
  Forall (fun entry => proc_base (snd entry) = protectedProcedure) blogRouter /\
  (forall name decl (I O : Type) (handler : Ctx -> I -> Tx O) input st,
     lookup_procedure name = Some decl ->
     run_procedure (proc_base decl) handler (mkCtx None) input st
       = Err (TRPCError UNAUTHORIZED) /\
     forall s, run_procedure (proc_base decl) handler (mkCtx (Some s)) input st
               = handler (mkCtx (Some s)) input st) /\
  (forall sc env input st,
     createNewBlog_procedure sc env (mkCtx None) input st = Err (TRPCError UNAUTHORIZED)) /\
  (forall input st,
     getAllBlogs_procedure (mkCtx None) input st = Err (TRPCError UNAUTHORIZED)) /\
  (forall input st,
     getBlogsByCategory_procedure (mkCtx None) input st = Err (TRPCError UNAUTHORIZED)) /\
  (forall input st,
     getBlogByUserId_procedure (mkCtx None) input st = Err (TRPCError UNAUTHORIZED)) /\
  (forall sc input st,
     deleteBlogByBlogId_procedure sc (mkCtx None) input st = Err (TRPCError UNAUTHORIZED)).
Proof.
  assert (Hall : Forall (fun entry => proc_base (snd entry) = protectedProcedure)
                        blogRouter)
    by (repeat constructor).
  split; [exact Hall|]. split; [|repeat split].
  intros name decl I O handler input st Hlook.
  assert (Hbase : proc_base decl = protectedProcedure).
  { unfold lookup_procedure in Hlook.
    destruct (find _ blogRouter) as [entry|] eqn:Hfind; [|discriminate].
    injection Hlook as <-. apply find_some in Hfind as [Hin _].
    rewrite Forall_forall in Hall. now apply Hall. }
  rewrite Hbase. split; reflexivity.
Qed.

(* ===================================================================== *)
(** ** The image container *)
(* ===================================================================== *)

Lemma load_failed_sets_error s p : ImageContainer.load_failed s p = true.
Proof. destruct s; reflexivity. Qed.

Lemma run_error_stays events : ImageContainer.run true events = true.
Proof.
  induction events as [|[p failed] rest IH]; simpl; [reflexivity|].
  destruct failed; [rewrite load_failed_sets_error|]; exact IH.
Qed.

(** C7. What [ImageContainer] shows.  In every render, the source of the
    picture is the fixed fallback avatar when the error state is set or the
    [image] prop is falsy (missing or the empty string), and is the [image]
    prop otherwise.  A loading failure sets the error state, whatever the
    state was, and the state stays set through every later render and
    failure, so from then on the fallback is shown, whatever the props. *)
Theorem ImageContainer_fallback (s : ImageContainer.State) (p : ImageContainer.Props) :
  ImageContainer.fallback_avatar
    = "https://api.dicebear.com/6.x/adventurer-neutral/svg?seed=Tigger"%string /\
  (s = true \/ Js.truthy_string (ImageContainer.image p) = false ->
   ImageContainer.src_of (ImageContainer.render s p) = ImageContainer.fallback_avatar) /\
  (forall url, s = false -> ImageContainer.image p = Some url -> url <> ""%string ->
   ImageContainer.src_of (ImageContainer.render s p) = url) /\
  (forall events p',
     ImageContainer.src_of
       (ImageContainer.render
          (ImageContainer.run (ImageContainer.load_failed s p) events) p')
     = ImageContainer.fallback_avatar).
Proof.
  split; [reflexivity|]. split; [|split].
  - intros [-> | Hfalsy]; [reflexivity|].
    destruct s; [reflexivity|].
    unfold ImageContainer.render; cbn [ImageContainer.src_of]; unfold Js.or_else.
    destruct (ImageContainer.image p) as [url|]; [now rewrite Hfalsy | reflexivity].
  - intros url -> Himg Hurl.
    unfold ImageContainer.render; cbn [ImageContainer.src_of]; unfold Js.or_else.
    rewrite Himg; unfold Js.truthy_string.
    destruct (String.eqb_spec url ""); [contradiction | reflexivity].
  - intros events p'. now rewrite load_failed_sets_error, run_error_stays.
Qed.

Example image_shown :
  ImageContainer.render ImageContainer.initial
    (ImageContainer.mkProps "h-10" ImageContainer.Male (Some "https://example.org/me.png"%string))
  = ImageContainer.Image "https://example.org/me.png"
      ImageContainer.handleImageLoadingError.
Proof. reflexivity. Qed.

Example image_missing :
  ImageContainer.src_of
    (ImageContainer.render ImageContainer.initial
       (ImageContainer.mkProps "h-10" ImageContainer.Female (Some ""%string)))
  = ImageContainer.fallback_avatar.
Proof. reflexivity. Qed.

(* ===================================================================== *)
(** ** The listings *)
(* ===================================================================== *)

Lemma insert_desc_perm p l : Permutation (p :: l) (Query.insert_desc p l).
Proof.
  induction l as [|q l IH]; simpl; [reflexivity|].
  destruct (post_createdAt q <=? post_createdAt p)%Z; [reflexivity|].
  rewrite perm_swap. now constructor.
Qed.

Lemma orderBy_perm l : Permutation l (Query.orderBy_createdAt_desc l).
Proof.
  induction l as [|p l IH]; simpl; [reflexivity|].
  rewrite <- insert_desc_perm. now constructor.
Qed.

Lemma insert_desc_sorted p l :
  StronglySorted not_older l -> StronglySorted not_older (Query.insert_desc p l).
Proof.
  induction 1 as [|q l Hs IH Hall]; simpl.
  - repeat constructor.
  - destruct (Z.leb_spec (post_createdAt q) (post_createdAt p)) as [Hle | Hlt].
    + constructor; [now constructor|].
      constructor; [exact Hle|].
      eapply Forall_impl; [|exact Hall].
      unfold not_older; intros r Hr; lia.
    + constructor; [exact IH|].
      eapply Permutation_Forall; [apply insert_desc_perm|].
      constructor; [unfold not_older; lia | exact Hall].
Qed.

Lemma orderBy_sorted l : StronglySorted not_older (Query.orderBy_createdAt_desc l).
Proof.
  induction l as [|p l IH]; simpl; [constructor | now apply insert_desc_sorted].
Qed.

(** What [findMany] returns: a listing by descending [createdAt] of the
    rows the [where] keeps, cut after [n] rows when there is a [take]. *)
Lemma post_findMany_spec where_ n st :
  exists rest,
    Permutation (Query.post_findMany where_ n st ++ rest) (filter where_ (posts st)) /\
    StronglySorted not_older (Query.post_findMany where_ n st ++ rest) /\
    match n with
    | Some k => length (Query.post_findMany where_ n st) <= k /\
                (rest <> [] -> length (Query.post_findMany where_ n st) = k)
    | None => rest = []
    end.
Proof.
  unfold Query.post_findMany.
  set (sorted := Query.orderBy_createdAt_desc (filter where_ (posts st))).
  destruct n as [k|]; simpl.
  - exists (skipn k sorted). rewrite firstn_skipn.
    split; [symmetry; apply orderBy_perm|].
    split; [apply orderBy_sorted|].
    split; [apply firstn_le_length|].
    intros Hrest. apply firstn_length_le.
    destruct (Nat.le_gt_cases k (length sorted)) as [Hle | Hgt]; [exact Hle|].
    exfalso; apply Hrest, skipn_all2; lia.
  - exists []. rewrite app_nil_r.
    split; [symmetry; apply orderBy_perm|].
    split; [apply orderBy_sorted | reflexivity].
Qed.

Lemma filter_all (A : Type) (l : list A) : filter (fun _ => true) l = l.
Proof. induction l as [|a l IH]; simpl; [reflexivity | now rewrite IH]. Qed.

(** In a listing by descending [createdAt], no row of a later part is newer
    than a row of an earlier part. *)
Lemma sorted_app_not_older shown rest p q :
  StronglySorted not_older (shown ++ rest) ->
  In p shown -> In q rest -> not_older p q.
Proof.
  intros Hsorted Hp Hq.
  induction shown as [|a shown IH]; [contradiction|].
  simpl in Hsorted. apply StronglySorted_inv in Hsorted as [Hs Hall].
  destruct Hp as [<- | Hp]; [|now apply IH].
  rewrite Forall_forall in Hall. apply Hall, in_or_app. now right.
Qed.

Lemma NoDup_map_inj (A B : Type) (f : A -> B) l a b :
  NoDup (map f l) -> In a l -> In b l -> f a = f b -> a = b.
Proof.
  induction l as [|x l IH]; simpl; [contradiction|].
  intros Hnd. apply NoDup_cons_iff in Hnd as [Hx Hnd].
  intros [<- | Ha] [<- | Hb] Heq; auto.
  - exfalso. apply Hx. rewrite Heq. now apply in_map.
  - exfalso. apply Hx. rewrite <- Heq. now apply in_map.
Qed.

(** In a store whose category identifiers identify rows, the category of a
    post is the row its foreign key names. *)
Lemma category_of_row st p c :
  NoDup (map category_id (categories st)) ->
  In c (categories st) -> post_categoryId p = category_id c ->
  Query.category_of st p = Some c.
Proof.
  intros Hnd Hin Hid. unfold Query.category_of.
  destruct (find _ (categories st)) as [c'|] eqn:Hfind.
  - apply find_some in Hfind as [Hin' Hid']. apply same_id_true in Hid'.
    f_equal. apply (NoDup_map_inj category_id _ _ _ Hnd Hin' Hin). congruence.
  - pose proof (find_none _ _ Hfind _ Hin) as Hf. simpl in Hf.
    apply same_id_false in Hf. congruence.
Qed.

Lemma of_category_spec st name p :
  of_category st name p = true <->
  exists c, In c (categories st) /\ category_id c = post_categoryId p /\
            category_name c = name.
Proof.
  unfold of_category. rewrite existsb_exists.
  split; intros (c & Hin & H); exists c.
  - apply andb_true_iff in H as [Hid Hname].
    apply same_id_true in Hid. apply String.eqb_eq in Hname. auto.
  - destruct H as [Hid Hname]. split; [exact Hin|].
    apply andb_true_iff. split; [now apply same_id_true | now apply String.eqb_eq].
Qed.

(** Where category identifiers identify rows, the query's [where] keeps
    exactly the posts of the category. *)
Lemma in_category_of_category st name p :
  NoDup (map category_id (categories st)) ->
  Query.in_category st name p = of_category st name p.
Proof.
  intros Hnd. unfold Query.in_category.
  destruct (of_category st name p) eqn:Hspec.
  - apply of_category_spec in Hspec as (c & Hin & Hid & Hname).
    rewrite (@category_of_row st p c Hnd Hin (eq_sym Hid)).
    now apply String.eqb_eq.
  - destruct (Query.category_of st p) as [c|] eqn:Hcat; [|reflexivity].
    destruct (String.eqb_spec (category_name c) name) as [Hname|]; [|reflexivity].
    unfold Query.category_of in Hcat. apply find_some in Hcat as [Hin Hid].
    apply same_id_true in Hid.
    assert (Htrue : of_category st name p = true)
      by (apply of_category_spec; eauto).
    congruence.
Qed.

Lemma filter_in_category st name :
  NoDup (map category_id (categories st)) ->
  filter (Query.in_category st name) (posts st)
  = filter (of_category st name) (posts st).
Proof.
  intros Hnd. apply filter_ext. intros p. now apply in_category_of_category.
Qed.

(** C9. [getBlogsByCategory] answers with at most 10 posts.  In a store
    whose category identifiers identify rows, the posts whose category has
    the given name, listed by descending [createdAt], split into the rows
    shown and the rows left out; rows are left out only once 10 are shown
    and none of them is newer than a row shown, so the rows shown are the 10
    most recent ones.  [getAllBlogs] answers with all the posts and
    [getBlogByUserId] with all the posts whose author is the given user,
    without a limit, in the same order. *)
Theorem listings ctx name userId st :
  NoDup (map category_id (categories st)) ->
  (exists shown rest,
     getBlogsByCategory ctx name st
       = OK (mkResponse 200 None (map (Query.select_summary st) shown), st) /\
     length shown <= 10 /\
     Permutation (shown ++ rest) (filter (of_category st name) (posts st)) /\
     (forall p, In p (shown ++ rest) <->
                In p (posts st) /\
                exists c, In c (categories st) /\
                          category_id c = post_categoryId p /\
                          category_name c = name) /\
     StronglySorted not_older (shown ++ rest) /\
     (rest <> [] -> length shown = 10) /\
     (forall p q, In p shown -> In q rest -> not_older p q)) /\
  (exists every,
     getAllBlogs ctx tt st
       = OK (mkResponse 200 None (map (Query.select_summary st) every), st) /\
     Permutation every (posts st) /\
     StronglySorted not_older every) /\
  (exists mine,
     getBlogByUserId ctx userId st
       = OK (mkResponse 200 (Some "BLOGS FOUND SUCCESSFULLY"%string)
                        (map (Query.include_count st) mine), st) /\
     Permutation mine
       (filter (fun p => String.eqb (post_authorId p) userId) (posts st)) /\
     (forall p, In p mine <-> In p (posts st) /\ post_authorId p = userId) /\
     StronglySorted not_older mine).
Proof.
  intros Hnd. split; [|split].
  - destruct (post_findMany_spec (Query.in_category st name) (Some 10) st)
      as (rest & Hperm & Hsorted & Hlen & Hfull).
    rewrite (@filter_in_category st name Hnd) in Hperm.
    exists (Query.post_findMany (Query.in_category st name) (Some 10) st), rest.
    split; [reflexivity|]. split; [exact Hlen|]. split; [exact Hperm|].
    split; [|split; [exact Hsorted|split; [exact Hfull|]]].
    + intros p. rewrite <- of_category_spec, <- filter_In.
      split; apply Permutation_in; [|symmetry]; exact Hperm.
    + intros p q; now apply sorted_app_not_older.
  - destruct (post_findMany_spec (fun _ => true) None st)
      as (rest & Hperm & Hsorted & ->).
    rewrite app_nil_r, filter_all in *.
    exists (Query.post_findMany (fun _ => true) None st).
    repeat split; assumption.
  - destruct (post_findMany_spec (Query.by_author userId) None st)
      as (rest & Hperm & Hsorted & ->).
    rewrite app_nil_r in *.
    assert (Hperm' : Permutation (Query.post_findMany (Query.by_author userId) None st)
                       (filter (fun p => String.eqb (post_authorId p) userId) (posts st))).
    { rewrite Hperm. erewrite filter_ext; [reflexivity|]. intros p. reflexivity. }
    exists (Query.post_findMany (Query.by_author userId) None st).
    split; [reflexivity|]. split; [exact Hperm'|]. split; [|exact Hsorted].
    intros p. rewrite <- (String.eqb_eq (post_authorId p) userId).
    rewrite <- (filter_In (fun p0 => String.eqb (post_authorId p0) userId)).
    split; apply Permutation_in; [|symmetry]; exact Hperm'.
Qed.

(** On the twelve posts of one category: ten are shown, two are left out,
    and shown and left out together are the twelve. *)
Lemma listings_witness :
  exists shown rest,
    getBlogsByCategory Fixture.ctx0 "Tech" twelve_posts
      = OK (mkResponse 200 None (map (Query.select_summary twelve_posts) shown),
            twelve_posts) /\
    length shown = 10 /\
    length rest = 2 /\
    Permutation (shown ++ rest) (posts twelve_posts).
Proof.
  assert (Hnd : NoDup (map category_id (categories twelve_posts)))
    by (repeat constructor; intros []).
  destruct (@listings Fixture.ctx0 "Tech"%string "u1"%string twelve_posts Hnd)
    as ((shown & rest & Hrun & Hle & Hperm & _ & _ & Hfull & _) & _).
  exists shown, rest.
  assert (Hall : filter (of_category twelve_posts "Tech") (posts twelve_posts)
                 = posts twelve_posts) by reflexivity.
  rewrite Hall in Hperm.
  pose proof (Permutation_length Hperm) as Hlen.
  rewrite length_app in Hlen.
  change (length (posts twelve_posts)) with 12 in Hlen.
  assert (Hrest : rest <> []) by (intros ->; simpl in Hlen; lia).
  specialize (Hfull Hrest).
  repeat split; [exact Hrun | exact Hfull | lia | exact Hperm].
Defined.

Example twelve_by_category :
  times Query.sum_createdAt (getBlogsByCategory Fixture.ctx0 "Tech" twelve_posts)
  = [12; 11; 10; 9; 8; 7; 6; 5; 4; 3]%Z.
Proof. vm_compute. reflexivity. Qed.

Example twelve_all :
  times Query.sum_createdAt (getAllBlogs Fixture.ctx0 tt twelve_posts)
  = [12; 11; 10; 9; 8; 7; 6; 5; 4; 3; 2; 1]%Z.
Proof. vm_compute. reflexivity. Qed.

Example twelve_by_author :
  times (fun b => post_createdAt (Query.counted_post b))
        (getBlogByUserId Fixture.ctx0 "u1" twelve_posts)
  = [12; 11; 10; 9; 8; 7; 6; 5; 4; 3; 2; 1]%Z.
Proof. vm_compute. reflexivity. Qed.

(* ===================================================================== *)
(** ** More on the slug and the pieces of the title *)
(* ===================================================================== *)

Lemma count_char_app c a b :
  count_char c (a ++ b)%string = count_char c a + count_char c b.
Proof.
  induction a as [|x a IH]; simpl; [reflexivity|].
  rewrite IH. apply Nat.add_assoc.
Qed.

Lemma count_char_replaced a b s :
  a <> b -> count_char a (replace_char a b s) = 0.
Proof.
  intros Hab; induction s as [|x s IH]; simpl; [reflexivity|].
  rewrite IH, Nat.add_0_r.
  destruct (Ascii.eqb_spec x a) as [-> | Hx].
  - destruct (Ascii.eqb_spec b a) as [-> | _]; [contradiction | reflexivity].
  - destruct (Ascii.eqb_spec x a) as [-> | _]; [contradiction | reflexivity].
Qed.

Lemma count_space_digits d :
  count_char " " (NilEmpty.string_of_uint d) = 0.
Proof. induction d; simpl; assumption || reflexivity. Qed.

Lemma count_space_number n : count_char " " (Js.number_to_string n) = 0.
Proof.
  unfold Js.number_to_string.
  destruct (Z.to_int n) as [d | d]; simpl;
    destruct d; simpl; try reflexivity; apply count_space_digits.
Qed.

Lemma split_length c s : length (Js.split c s) = S (count_char c s).
Proof.
  induction s as [|x s IH]; simpl; [reflexivity|].
  destruct (Ascii.eqb x c); simpl.
  - now rewrite IH.
  - destruct (Js.split c s) as [|p ps]; simpl in *; [discriminate | exact IH].
Qed.

Lemma split_pieces_clean c s :
  Forall (fun piece => count_char c piece = 0) (Js.split c s).
Proof.
  induction s as [|x s IH]; simpl; [repeat constructor|].
  destruct (Ascii.eqb x c) eqn:Hx.
  - constructor; [reflexivity | exact IH].
  - destruct (Js.split c s) as [|p ps].
    + repeat constructor. simpl. now rewrite Hx.
    + apply Forall_cons_iff in IH as [Hp Hps].
      constructor; [|exact Hps]. simpl. now rewrite Hx, Hp.
Qed.

(** The digits of a number read back as the number. *)
Lemma parse_number_to_string n :
  parse_number (Js.number_to_string n) = Some n.
Proof.
  unfold parse_number, Js.number_to_string.
  rewrite NilZero.isi.
  - simpl. now rewrite DecimalZ.of_to.
  - destruct n as [|p|p]; simpl; try discriminate.
    intros [= H]. now apply (DecimalPos.Unsigned.to_uint_nonnil p).
  - destruct n as [|p|p]; simpl; try discriminate.
    intros [= H]. now apply (DecimalPos.Unsigned.to_uint_nonnil p).
Qed.

Lemma append_cancel_l (a b c : string) :
  (a ++ b)%string = (a ++ c)%string -> b = c.
Proof.
  induction a as [|x a IH]; simpl; [trivial|].
  intros [= H]. now apply IH.
Qed.

(** X1. The slug is the title with every space turned into "-", then "-",
    then the digits of the clock; it has as many characters as the title,
    the digits and one more, and there is no space in it. *)
Theorem make_slug_shape (title_ : string) (now : Z) :
  let slug := make_slug (Js.split " " title_) now in
  slug = (replace_char " " "-" title_ ++ "-" ++ Js.number_to_string now)%string /\
  has_char " " slug = false /\
  String.length slug
    = String.length title_ + 1 + String.length (Js.number_to_string now).
Proof.
  assert (Hlen : forall a b s,
             String.length (replace_char a b s) = String.length s).
  { intros a b s; induction s as [|x s IH]; simpl; [reflexivity | now rewrite IH]. }
  assert (Happ : forall a b : string,
             String.length (a ++ b) = String.length a + String.length b).
  { intros a b; induction a as [|x a IH]; simpl; [reflexivity | now rewrite IH]. }
  cbv zeta. unfold make_slug. rewrite join_split_replace.
  split; [reflexivity|]. split.
  - unfold has_char. rewrite !count_char_app, count_char_replaced by discriminate.
    now rewrite count_space_number.
  - rewrite !Happ, Hlen. simpl. lia.
Qed.

(** X2. For one title, two different values of the clock give two
    different slugs. *)
Theorem make_slug_clock_injective (pieces : list string) (n1 n2 : Z) :
  n1 <> n2 -> make_slug pieces n1 <> make_slug pieces n2.
Proof.
  intros Hne Heq. apply Hne. unfold make_slug in Heq.
  apply append_cancel_l in Heq. apply append_cancel_l in Heq.
  apply (f_equal parse_number) in Heq.
  rewrite !parse_number_to_string in Heq. now injection Heq.
Qed.

Lemma make_slug_clock_injective_witness :
  make_slug ["hello"; "world"]%string 1700000000000
  <> make_slug ["hello"; "world"]%string 1700000000001.
Proof. apply make_slug_clock_injective. discriminate. Defined.

(* ===================================================================== *)
(** ** More on createNewBlog *)
(* ===================================================================== *)

Lemma existsb_same_id (A : Type) (key : A -> Id) (i : Id) (rows : list A) :
  existsb (fun r => same_id (key r) i) rows = true <-> In i (map key rows).
Proof.
  rewrite existsb_exists, in_map_iff.
  split; intros (r & H1 & H2).
  - apply same_id_true in H2. eauto.
  - exists r. now rewrite same_id_true.
Qed.

Lemma existsb_same_id_false (A : Type) (key : A -> Id) (i : Id) (rows : list A) :
  existsb (fun r => same_id (key r) i) rows = false <-> ~ In i (map key rows).
Proof.
  rewrite <- existsb_same_id, not_true_iff_false. reflexivity.
Qed.

(** The checks a successful [post.create] has passed. *)
Lemma post_create_checks sc env d st pc st' :
  Prisma.post_create sc env d st = OK (pc, st') ->
  (exists author, Prisma.data_user d = Some author /\
                  In author (map user_id (users st))) /\
  ~ In (new_post_id env) (map post_id (posts st)) /\
  (slug_unique sc = true -> ~ In (Prisma.data_slug d) (map post_slug (posts st))).
Proof.
  unfold Prisma.post_create, bind at 1.
  destruct (Prisma.category_connectOrCreate _ _ st) as [[c st1]|e] eqn:Hc;
    [|discriminate].
  assert (Hst1 : users st1 = users st /\ posts st1 = posts st).
  { apply category_connectOrCreate_inv in Hc as [_ [[_ ->] | [_ ->]]];
      simpl; split; reflexivity. }
  destruct Hst1 as (Hu & Hp).
  unfold bind at 1, Prisma.user_connect.
  destruct (Prisma.data_user d) as [author|]; [|discriminate].
  destruct (existsb _ (users st1)) eqn:Huser; [|discriminate].
  unfold bind at 1, Prisma.post_insert. cbn [post_id post_slug].
  destruct (existsb _ (posts st1)) eqn:Hid; [discriminate|].
  destruct (slug_unique sc && _) eqn:Hslug; [discriminate|].
  intros _. rewrite Hu in Huser. rewrite Hp in Hid, Hslug.
  split; [|split].
  - exists author. split; [reflexivity|]. now apply existsb_same_id in Huser.
  - now apply existsb_same_id_false in Hid.
  - intros Huniq. rewrite Huniq in Hslug. simpl in Hslug.
    intros Hin. apply in_map_iff in Hin as (q & Hq & Hin).
    assert (Hex : existsb (fun q0 => String.eqb (post_slug q0) (Prisma.data_slug d))
                          (posts st) = true).
    { apply existsb_exists. exists q. split; [exact Hin|]. now apply String.eqb_eq. }
    congruence.
Qed.

(** X3. A successful [createNewBlog] adds one tag row more than the title
    has spaces; every row it adds has a name without a space and points to
    the new post.  In particular an empty title adds a single tag row with
    the empty name. *)
Theorem createNewBlog_tag_count sc env ctx input st r st' :
  createNewBlog sc env ctx input st = OK (r, st') ->
  length (tags st') = length (tags st) + S (count_char " " (title input)) /\
  (forall t, In t (tags st') ->
     In t (tags st) \/
     (has_char " " (tag_name t) = false /\
      tag_postId t = Some (post_id (Prisma.the_post (data r))))) /\
  (title input = ""%string ->
   tags st' = tags st ++ [mkTag (new_tag_id env 0) "" (Some (new_post_id env))]).
Proof.
  intros H. apply createNewBlog_inv in H as [_ H].
  apply post_create_inv in H as (author & st1 & _ & _ & Hp & ->).
  cbn [Prisma.data_tags tags]. rewrite Hp; cbn [post_id].
  split; [|split].
  - now rewrite length_app, new_tag_rows_length, split_length.
  - intros t Ht. apply in_app_or in Ht as [Ht | Ht]; [now left | right]. split.
    + pose proof (split_pieces_clean " " (title input)) as Hclean.
      rewrite <- (new_tag_rows_names env (new_post_id env) 0) in Hclean.
      rewrite Forall_map, Forall_forall in Hclean.
      unfold has_char. now rewrite (Hclean t Ht).
    + eapply new_tag_rows_post; eassumption.
  - intros ->. reflexivity.
Qed.

Lemma createNewBlog_tag_count_witness :
  length (tags Fixture.st1) = length (tags Fixture.st0) + 4.
Proof. apply (createNewBlog_tag_count _ _ _ _ _ create_input0). Defined.

(** X4. A successful [createNewBlog] only adds rows: the users, comments
    and reactions are as they were, the posts are the old ones followed by
    the new post, the tags and the categories are the old ones followed by
    new ones, at most one for the categories. *)
Theorem createNewBlog_only_appends sc env ctx input st r st' :
  createNewBlog sc env ctx input st = OK (r, st') ->
  users st' = users st /\
  comments st' = comments st /\
  reactions st' = reactions st /\
  posts st' = posts st ++ [Prisma.the_post (data r)] /\
  (exists new_tags, tags st' = tags st ++ new_tags) /\
  (exists new_categories,
     categories st' = categories st ++ new_categories /\
     length new_categories <= 1).
Proof.
  intros H. apply createNewBlog_inv in H as [_ H].
  apply post_create_inv in H as (author & st1 & Hc & _ & _ & ->).
  cbn [users comments reactions posts tags categories].
  repeat (split; [reflexivity|]).
  split; [eexists; reflexivity|].
  apply category_connectOrCreate_inv in Hc as [_ [[_ ->] | [_ ->]]].
  - exists []. split; [now rewrite app_nil_r | simpl; lia].
  - eexists. split; [reflexivity | simpl; lia].
Qed.

Lemma createNewBlog_only_appends_witness :
  users Fixture.st1 = users Fixture.st0 /\
  comments Fixture.st1 = comments Fixture.st0 /\
  reactions Fixture.st1 = reactions Fixture.st0 /\
  posts Fixture.st1 = posts Fixture.st0 ++ [Fixture.second_post].
Proof.
  destruct (createNewBlog_only_appends _ _ _ _ _ create_input0)
    as (H1 & H2 & H3 & H4 & _).
  repeat split; assumption.
Defined.

(** X5. The post a successful [createNewBlog] answers with has status 201
    and carries the title, subtitle and body of the input; its author is the
    user of the session, who is a user of the store. *)
Theorem createNewBlog_author sc env ctx input st r st' :
  createNewBlog sc env ctx input st = OK (r, st') ->
  let p := Prisma.the_post (data r) in
  status r = 201 /\
  post_title p = title input /\
  post_subtitle p = subtitle input /\
  post_body p = body input /\
  exists s, session ctx = Some s /\
            post_authorId p = session_user_id s /\
            In (session_user_id s) (map user_id (users st')).
Proof.
  intros H p; subst p. apply createNewBlog_inv in H as [Hstatus H].
  pose proof (post_create_checks _ _ _ _ H) as ((author & Huser & Hin) & _).
  apply post_create_inv in H as (author' & st1 & _ & Huser' & Hp & ->).
  rewrite Hp. cbn [post_title post_subtitle post_body post_authorId users
                   Prisma.data_title Prisma.data_subtitle Prisma.data_body].
  repeat (split; [assumption || reflexivity|]).
  cbn [Prisma.data_user] in Huser, Huser'.
  destruct (session ctx) as [s|]; [|discriminate].
  exists s. simpl in Huser, Huser'. injection Huser as <-. injection Huser' as <-.
  repeat split. exact Hin.
Qed.

Lemma createNewBlog_author_witness :
  post_authorId Fixture.second_post = "u1"%string /\
  In "u1"%string (map user_id (users Fixture.st1)).
Proof.
  destruct (createNewBlog_author _ _ _ _ _ create_input0)
    as (_ & _ & _ & _ & s & Hs & Ha & Hin).
  injection Hs as <-. split; [exact Ha | exact Hin].
Defined.

Lemma tag_createMany_ok sc env post data : forall k st,
  (forall i, In i (map (new_tag_id env) (seq k (length data))) ->
             ~ In i (map tag_id (tags st))) ->
  NoDup (map (new_tag_id env) (seq k (length data))) ->
  (tag_name_unique sc = true ->
   NoDup data /\ forall w, In w data -> ~ In w (map tag_name (tags st))) ->
  exists st', Prisma.tag_createMany sc env post k data st = OK (tt, st').
Proof.
  induction data as [|name rest IH]; intros k st Hfresh Hdistinct Hnames.
  - eexists; reflexivity.
  - cbn [Prisma.tag_createMany]. unfold bind at 1, Prisma.tag_insert.
    cbn [tag_id tag_name]. cbn [length seq map] in Hfresh, Hdistinct.
    apply NoDup_cons_iff in Hdistinct as [Hk Hdistinct].
    assert (Hid : existsb (fun u => same_id (tag_id u) (new_tag_id env k)) (tags st)
                  = false).
    { apply existsb_same_id_false, Hfresh. now left. }
    rewrite Hid.
    assert (Hname : tag_name_unique sc
                    && existsb (fun u => String.eqb (tag_name u) name) (tags st)
                    = false).
    { destruct (tag_name_unique sc) eqn:Huniq; [|reflexivity].
      destruct (Hnames eq_refl) as [_ Hnew]. simpl.
      apply (existsb_same_id_false tag_name), Hnew. now left. }
    rewrite Hname.
    apply IH; cbn [Prisma.set_tags tags].
    + intros i Hi. rewrite map_app, in_app_iff. cbn [map tag_id In].
      intros [Hold | [<- | []]].
      * apply (Hfresh i); [now right | exact Hold].
      * contradiction.
    + exact Hdistinct.
    + intros Huniq. destruct (Hnames Huniq) as [Hnd Hnew].
      apply NoDup_cons_iff in Hnd as [Hname' Hnd]. split; [exact Hnd|].
      intros w Hw. rewrite map_app, in_app_iff. cbn [map tag_name In].
      intros [Hold | [<- | []]].
      * apply (Hnew w); [now right | exact Hold].
      * contradiction.
Qed.

(** X6. [createNewBlog] goes through whenever the session's user is in the
    store, the identifiers the database generates are unused and distinct,
    and the unique constraints of the schema, if it has them, are met: the
    slug is not taken, the pieces of the title differ from each other and
    from the names of the tags there are. *)
Theorem createNewBlog_succeeds sc env ctx input st s :
  session ctx = Some s ->
  In (session_user_id s) (map user_id (users st)) ->
  fresh_ids env st (S (count_char " " (title input))) ->
  (slug_unique sc = true ->
   ~ In (make_slug (Js.split " " (title input)) (date_now env))
        (map post_slug (posts st))) ->
  (tag_name_unique sc = true ->
   NoDup (Js.split " " (title input)) /\
   forall w, In w (Js.split " " (title input)) ->
             ~ In w (map tag_name (tags st))) ->
  exists r st', createNewBlog sc env ctx input st = OK (r, st').
Proof.
  intros Hs Huser [Hpost Hcat Htags Hdistinct] Hslug Hnames.
  unfold new_tag_ids in Htags, Hdistinct. rewrite <- split_length in Htags, Hdistinct.
  unfold createNewBlog, bind at 1, Prisma.post_create, bind at 1.
  rewrite map_id. cbn [Prisma.data_category Prisma.data_user Prisma.data_tags
                       Prisma.data_slug].
  assert (Hc : exists c st1,
             Prisma.category_connectOrCreate env (category input) st = OK (c, st1) /\
             users st1 = users st /\ posts st1 = posts st /\ tags st1 = tags st).
  { unfold Prisma.category_connectOrCreate.
    destruct (find _ (categories st)) as [c|]; [now eauto 6|].
    cbn [category_id].
    apply existsb_same_id_false in Hcat. rewrite Hcat. eexists; eexists.
    split; [reflexivity | repeat split]. }
  destruct Hc as (c & st1 & -> & Hu & Hp & Ht).
  unfold bind at 1, Prisma.user_connect. rewrite Hs. cbn [option_map].
  rewrite Hu. apply existsb_same_id in Huser. rewrite Huser.
  unfold bind at 1, Prisma.post_insert. cbn [post_id post_slug]. rewrite Hp.
  apply existsb_same_id_false in Hpost. rewrite Hpost.
  assert (Hslug' : slug_unique sc
                   && existsb (fun q => String.eqb (post_slug q)
                                 (make_slug (Js.split " " (title input)) (date_now env)))
                              (posts st) = false).
  { destruct (slug_unique sc); [|reflexivity]. simpl.
    apply (existsb_same_id_false post_slug), Hslug. reflexivity. }
  rewrite Hslug'. unfold bind at 1.
  cbn [Prisma.data_title Prisma.data_subtitle Prisma.data_body Prisma.data_image
       Prisma.data_slug Prisma.data_tags].
  destruct (@tag_createMany_ok sc env (new_post_id env) (Js.split " " (title input))
              0 (Prisma.set_posts st1
                   (posts st ++ [mkPost (new_post_id env) (title input)
                                   (subtitle input) (body input)
                                   (Js.or_null (image input))
                                   (make_slug (Js.split " " (title input)) (date_now env))
                                   (db_now env) (session_user_id s) (category_id c)])))
    as [st2 Hst2].
  - cbn [Prisma.set_posts tags]. now rewrite Ht.
  - exact Hdistinct.
  - cbn [Prisma.set_posts tags]. now rewrite Ht.
  - rewrite Hst2. unfold ret. eauto.
Qed.

Ltac distinct_strings :=
  repeat match goal with
         | |- NoDup _ => constructor
         | |- ~ _ => intros ?
         | |- _ /\ _ => split
         | |- forall _, _ => intros ?
         | H : In _ _ |- _ => cbn in H
         | H : _ \/ _ |- _ => destruct H
         | H : False |- _ => destruct H
         | H : _ = _ |- _ => discriminate H || subst
         end.

Lemma createNewBlog_succeeds_witness :
  exists r st',
    createNewBlog (mkSchema true true Cascade Cascade Cascade)
      Fixture.env0 Fixture.ctx0 Fixture.input1 Fixture.st0 = OK (r, st').
Proof.
  apply (@createNewBlog_succeeds _ _ _ _ _ (mkSession "u1")).
  - reflexivity.
  - now left.
  - constructor; cbn; distinct_strings.
  - intros _. cbn. distinct_strings.
  - intros _. cbn. distinct_strings.
Defined.

(* ===================================================================== *)
(** ** The store stays well formed *)
(* ===================================================================== *)

Lemma NoDup_map_snoc (A B : Type) (f : A -> B) l x :
  NoDup (map f l) -> ~ In (f x) (map f l) -> NoDup (map f (l ++ [x])).
Proof.
  intros Hnd Hx. rewrite map_app; simpl.
  apply NoDup_app; [exact Hnd | repeat constructor; intros [] | ].
  intros b Hb [<- | []]. contradiction.
Qed.

Lemma NoDup_map_filter (A B : Type) (f : A -> B) (keep : A -> bool) l :
  NoDup (map f l) -> NoDup (map f (filter keep l)).
Proof.
  induction l as [|a l IH]; simpl; [trivial|].
  intros Hnd. apply NoDup_cons_iff in Hnd as [Ha Hnd].
  destruct (keep a); simpl; [|now apply IH].
  constructor; [|now apply IH].
  intros Hin. apply Ha. apply in_map_iff in Hin as (x & Hx & Hin).
  apply filter_In in Hin as [Hin _]. apply in_map_iff. eauto.
Qed.

(** A category row that [connectOrCreate] adds has an unused identifier and
    an unused name. *)
Lemma category_connectOrCreate_new env name st c st' :
  Prisma.category_connectOrCreate env name st = OK (c, st') ->
  find (Prisma.has_category_name name) (categories st) = None ->
  ~ In (category_id c) (map category_id (categories st)) /\
  ~ In (category_name c) (map category_name (categories st)).
Proof.
  unfold Prisma.category_connectOrCreate. intros H Hfind. rewrite Hfind in H.
  cbn [category_id] in H.
  destruct (existsb _ (categories st)) eqn:Hid; [discriminate|].
  injection H as <- _. cbn [category_id category_name]. split.
  - now apply existsb_same_id_false in Hid.
  - now apply find_none_name.
Qed.

Lemma tag_createMany_keeps_ids sc env post data : forall k st u st',
  Prisma.tag_createMany sc env post k data st = OK (u, st') ->
  NoDup (map tag_id (tags st)) -> NoDup (map tag_id (tags st')).
Proof.
  induction data as [|name rest IH]; intros k st u st'; simpl.
  - now intros [= _ <-].
  - unfold bind at 1, Prisma.tag_insert. cbn [tag_id tag_name].
    destruct (existsb _ (tags st)) eqn:Hid; [discriminate|].
    case_if; [discriminate|].
    intros H Hnd. apply IH in H; [exact H|].
    cbn [Prisma.set_tags tags]. apply NoDup_map_snoc; [exact Hnd|].
    now apply existsb_same_id_false in Hid.
Qed.

Lemma post_create_tags_ids sc env d st pc st' :
  Prisma.post_create sc env d st = OK (pc, st') ->
  NoDup (map tag_id (tags st)) -> NoDup (map tag_id (tags st')).
Proof.
  unfold Prisma.post_create, bind at 1.
  destruct (Prisma.category_connectOrCreate _ _ st) as [[c st1]|e] eqn:Hc;
    [|discriminate].
  assert (Ht : tags st1 = tags st).
  { apply category_connectOrCreate_inv in Hc as [_ [[_ ->] | [_ ->]]]; reflexivity. }
  unfold bind at 1, Prisma.user_connect.
  destruct (Prisma.data_user d) as [author|]; [|discriminate].
  case_if; [|discriminate].
  unfold bind at 1, Prisma.post_insert.
  case_if; [discriminate|]. case_if; [discriminate|].
  unfold bind at 1.
  destruct (Prisma.tag_createMany _ _ _ _ _ _) as [[u st2]|e] eqn:Htags;
    [|discriminate].
  intros [= _ <-] Hnd.
  apply tag_createMany_keeps_ids in Htags; [exact Htags|].
  cbn [Prisma.set_posts tags]. now rewrite Ht.
Qed.

Lemma post_create_well_formed sc env d st pc st' :
  well_formed st ->
  Prisma.post_create sc env d st = OK (pc, st') ->
  well_formed st'.
Proof.
  intros Hwf H.
  pose proof (post_create_tags_ids _ _ _ _ H (wf_tag_ids Hwf)) as Htagids.
  pose proof (post_create_checks _ _ _ _ H) as ((author & Huser & Hauthor) & Hpid & _).
  apply post_create_inv in H as (author' & st1 & Hc & Huser' & Hp & Hst').
  rewrite Huser in Huser'. injection Huser' as <-.
  set (c := Prisma.the_category pc) in *.
  set (p := Prisma.the_post pc) in *.
  assert (Hpid' : post_id p = new_post_id env) by now rewrite Hp.
  assert (Hcats : NoDup (map category_id (categories st1)) /\
                  NoDup (map category_name (categories st1)) /\
                  In c (categories st1) /\
                  forall x, In x (categories st) -> In x (categories st1)).
  { pose proof (category_connectOrCreate_new _ _ _ Hc) as Hnew.
    apply category_connectOrCreate_inv in Hc as [_ [[Hfind ->] | [Hfind ->]]].
    - apply find_some_name in Hfind as [Hin _].
      repeat split; try apply Hwf; auto.
    - destruct (Hnew Hfind) as [Hid Hname]. cbn [Prisma.set_categories categories].
      split; [apply NoDup_map_snoc; [apply Hwf | exact Hid]|].
      split; [apply NoDup_map_snoc; [apply Hwf | exact Hname]|].
      split; [apply in_or_app; right; now left|].
      intros x Hx. apply in_or_app. now left. }
  destruct Hcats as (Hcid & Hcname & Hcin & Hcgrow).
  assert (Hposts : forall i, In i (map post_id (posts st)) ->
                             In i (map post_id (posts st ++ [p]))).
  { intros i Hi. rewrite map_app. apply in_or_app. now left. }
  subst st'. constructor; cbn [users categories posts tags comments reactions].
  - apply Hwf.
  - exact Hcid.
  - exact Hcname.
  - apply NoDup_map_snoc; [apply Hwf | now rewrite Hpid'].
  - exact Htagids.
  - apply Hwf.
  - apply Hwf.
  - intros q Hq. apply in_app_or in Hq as [Hq | [<- | []]].
    + now apply (wf_post_author Hwf).
    + now rewrite Hp.
  - intros q Hq. apply in_app_or in Hq as [Hq | [<- | []]].
    + pose proof (wf_post_category Hwf q Hq) as Hin.
      apply in_map_iff in Hin as (x & Hx & Hin).
      apply in_map_iff. exists x. split; [exact Hx | now apply Hcgrow].
    + rewrite Hp. cbn [post_categoryId]. now apply in_map.
  - intros t i Ht Hi. apply in_app_or in Ht as [Ht | Ht].
    + apply Hposts. now apply (wf_tag_post Hwf t).
    + apply new_tag_rows_post in Ht. rewrite Ht in Hi. injection Hi as <-.
      rewrite map_app. apply in_or_app. right. rewrite <- Hpid'. now left.
  - intros x i Hx Hi. apply Hposts. now apply (wf_comment_post Hwf x).
  - intros x i Hx Hi. apply Hposts. now apply (wf_reaction_post Hwf x).
Qed.

(** X7. [createNewBlog] keeps the store well formed: after a successful
    call primary keys and category names still identify rows, and every
    post still has its author and its category, every tag, comment and
    reaction its post. *)
Theorem createNewBlog_well_formed sc env ctx input st r st' :
  well_formed st ->
  createNewBlog sc env ctx input st = OK (r, st') ->
  well_formed st'.
Proof.
  intros Hwf H. apply createNewBlog_inv in H as [_ H].
  exact (@post_create_well_formed _ _ _ _ _ _ Hwf H).
Qed.

Ltac rows_point_inside :=
  cbn; intros;
  repeat match goal with
         | H : _ \/ _ |- _ => destruct H
         | H : False |- _ => destruct H
         | H : Some _ = Some _ |- _ => injection H as H
         | H : _ = _ |- _ => progress subst
         end;
  cbn in *;
  repeat match goal with
         | H : Some _ = Some _ |- _ => injection H as H; subst
         end;
  cbn; auto 10.

Lemma fixture_well_formed : well_formed Fixture.st0.
Proof.
  constructor; try (cbn; distinct_strings; fail); rows_point_inside.
Qed.

Lemma createNewBlog_well_formed_witness : well_formed Fixture.st1.
Proof.
  exact (@createNewBlog_well_formed _ _ _ _ _ _ _ fixture_well_formed create_input0).
Defined.

(** Whatever the referential action, the child rows a deletion leaves keep
    their keys, point where they pointed or nowhere, and none points to the
    deleted post. *)
Lemma on_delete_rows (A : Type) (key : A -> Id) (fk : A -> option Id)
    (clear : A -> A) action id rows rows' :
  (forall r, key (clear r) = key r) ->
  (forall r, fk (clear r) = None) ->
  Prisma.on_delete action fk clear id rows = OK rows' ->
  (NoDup (map key rows) -> NoDup (map key rows')) /\
  (forall r' i, In r' rows' -> fk r' = Some i ->
                i <> id /\ exists r, In r rows /\ fk r = Some i).
Proof.
  intros Hkey Hfk. unfold Prisma.on_delete.
  assert (Hpoint : forall r i, points_to (fk r) id = false -> fk r = Some i -> i <> id).
  { intros r i Hp Hi ->. apply points_to_true in Hi. congruence. }
  destruct action.
  - intros [= <-]. split; [apply NoDup_map_filter|].
    intros r' i Hin Hi. apply filter_In in Hin as [Hin Hp].
    apply negb_true_iff in Hp. split; [eapply Hpoint; eassumption | eauto].
  - destruct (existsb _ rows) eqn:Hex; [discriminate|]. intros [= <-].
    split; [trivial|]. intros r' i Hin Hi. split; [|eauto].
    eapply Hpoint; [|exact Hi].
    destruct (points_to (fk r') id) eqn:Hp; [|reflexivity].
    rewrite <- Hex. symmetry. apply existsb_exists. eauto.
  - destruct (existsb _ rows) eqn:Hex; [discriminate|]. intros [= <-].
    split; [trivial|]. intros r' i Hin Hi. split; [|eauto].
    eapply Hpoint; [|exact Hi].
    destruct (points_to (fk r') id) eqn:Hp; [|reflexivity].
    rewrite <- Hex. symmetry. apply existsb_exists. eauto.
  - intros [= <-]. split.
    + intros Hnd. rewrite map_map.
      erewrite map_ext; [exact Hnd|].
      intros r; simpl. destruct (points_to (fk r) id); [apply Hkey | reflexivity].
    + intros r' i Hin Hi. apply in_map_iff in Hin as (r & <- & Hin).
      destruct (points_to (fk r) id) eqn:Hp.
      * rewrite Hfk in Hi. discriminate.
      * split; [eapply Hpoint; eassumption | eauto].
Qed.

Lemma post_delete_well_formed sc id st v st' :
  well_formed st ->
  Prisma.post_delete sc id st = OK (v, st') ->
  well_formed st' /\
  ~ In id (map post_id (posts st')) /\
  (forall t, In t (tags st') -> tag_postId t <> Some id) /\
  (forall c, In c (comments st') -> comment_postId c <> Some id) /\
  (forall r, In r (reactions st') -> reaction_postId r <> Some id).
Proof.
  intros Hwf. unfold Prisma.post_delete.
  destruct (find _ (posts st)) as [p|]; [|discriminate].
  destruct (Prisma.on_delete (comment_onDelete sc) comment_postId
              Prisma.clear_comment id (comments st)) as [cs|e] eqn:Hcs;
    [|discriminate].
  destruct (Prisma.on_delete (reaction_onDelete sc) reaction_postId
              Prisma.clear_reaction id (reactions st)) as [rs|e] eqn:Hrs;
    [|discriminate].
  destruct (Prisma.on_delete (tag_onDelete sc) tag_postId
              Prisma.clear_tag id (tags st)) as [ts|e] eqn:Hts;
    [|discriminate].
  intros [= _ <-].
  apply (on_delete_rows comment_id) in Hcs as [Hcid Hcfk]; [|reflexivity..].
  apply (on_delete_rows reaction_id) in Hrs as [Hrid Hrfk]; [|reflexivity..].
  apply (on_delete_rows tag_id) in Hts as [Htid Htfk]; [|reflexivity..].
  set (kept := filter (fun q => negb (same_id (post_id q) id)) (posts st)).
  assert (Hkept : forall i, i <> id -> In i (map post_id (posts st)) ->
                            In i (map post_id kept)).
  { intros i Hi Hin. apply in_map_iff in Hin as (q & <- & Hin).
    apply in_map, filter_In. split; [exact Hin|].
    now apply negb_true_iff, same_id_false. }
  assert (Hsub : forall q, In q kept -> In q (posts st)).
  { intros q Hq. now apply filter_In in Hq. }
  split; [|split; [|split; [|split]]];
    cbn [users categories posts tags comments reactions].
  - constructor; cbn [users categories posts tags comments reactions];
      try apply Hwf.
    + apply NoDup_map_filter, Hwf.
    + apply Htid, Hwf.
    + apply Hcid, Hwf.
    + apply Hrid, Hwf.
    + intros q Hq. apply (wf_post_author Hwf), Hsub, Hq.
    + intros q Hq. apply (wf_post_category Hwf), Hsub, Hq.
    + intros t i Ht Hi. destruct (Htfk t i Ht Hi) as (Hne & t0 & Hin0 & Hi0).
      apply Hkept; [exact Hne|]. now apply (wf_tag_post Hwf t0).
    + intros c i Hc Hi. destruct (Hcfk c i Hc Hi) as (Hne & c0 & Hin0 & Hi0).
      apply Hkept; [exact Hne|]. now apply (wf_comment_post Hwf c0).
    + intros r i Hr Hi. destruct (Hrfk r i Hr Hi) as (Hne & r0 & Hin0 & Hi0).
      apply Hkept; [exact Hne|]. now apply (wf_reaction_post Hwf r0).
  - intros Hin. apply in_map_iff in Hin as (q & Hq & Hin).
    apply filter_In in Hin as [_ Hne].
    apply negb_true_iff, same_id_false in Hne. contradiction.
  - intros t Ht Hi. now destruct (Htfk t id Ht Hi).
  - intros c Hc Hi. now destruct (Hcfk c id Hc Hi).
  - intros r Hr Hi. now destruct (Hrfk r id Hr Hi).
Qed.

Lemma deleteBlogByBlogId_inv sc ctx id st r st' :
  deleteBlogByBlogId sc ctx id st = OK (r, st') ->
  exists v, Prisma.post_delete sc id st = OK (v, st').
Proof.
  unfold deleteBlogByBlogId, bind.
  destruct (Prisma.post_delete sc id st) as [[v st1]|e]; [|discriminate].
  destruct (negb (Js.truthy_object v)); [discriminate|].
  intros [= _ <-]. eauto.
Qed.

(** X8. Under every schema, a [deleteBlogByBlogId] that goes through keeps
    the store well formed and leaves no trace of the post: no post has the
    identifier any more and no tag, comment or reaction points to it. *)
Theorem deleteBlogByBlogId_well_formed sc ctx id st r st' :
  well_formed st ->
  deleteBlogByBlogId sc ctx id st = OK (r, st') ->
  well_formed st' /\
  ~ In id (map post_id (posts st')) /\
  (forall t, In t (tags st') -> tag_postId t <> Some id) /\
  (forall c, In c (comments st') -> comment_postId c <> Some id) /\
  (forall x, In x (reactions st') -> reaction_postId x <> Some id).
Proof.
  intros Hwf H. apply deleteBlogByBlogId_inv in H as [v H].
  exact (@post_delete_well_formed _ _ _ _ _ Hwf H).
Qed.

(* ===================================================================== *)
(** ** Writing, then reading *)
(* ===================================================================== *)

Lemma post_findMany_all where_ st :
  Permutation (Query.post_findMany where_ None st) (filter where_ (posts st)).
Proof. symmetry. apply orderBy_perm. Qed.

Lemma post_findMany_all_In where_ st p :
  In p (Query.post_findMany where_ None st) <-> In p (posts st) /\ where_ p = true.
Proof.
  rewrite <- filter_In. split; apply Permutation_in;
    [|symmetry]; apply post_findMany_all.
Qed.

Lemma post_findMany_In where_ n st p :
  In p (Query.post_findMany where_ n st) -> In p (posts st) /\ where_ p = true.
Proof.
  intros H. apply post_findMany_all_In.
  destruct n as [k|]; [|exact H].
  unfold Query.post_findMany, Query.take in *.
  rewrite <- (firstn_skipn k). apply in_or_app. now left.
Qed.

(** X9. After a successful [createNewBlog], [getAllBlogs] lists the new
    post and one post more than there were, and [getBlogByUserId] lists the
    new post for its author, whoever asks. *)
Theorem createNewBlog_then_listed sc env ctx input st r st' ctx' :
  createNewBlog sc env ctx input st = OK (r, st') ->
  let p := Prisma.the_post (data r) in
  exists every mine,
    getAllBlogs ctx' tt st' = OK (mkResponse 200 None every, st') /\
    In (Query.select_summary st' p) every /\
    length every = S (length (posts st)) /\
    getBlogByUserId ctx' (post_authorId p) st'
      = OK (mkResponse 200 (Some "BLOGS FOUND SUCCESSFULLY"%string) mine, st') /\
    In (Query.include_count st' p) mine.
Proof.
  intros H p. pose proof (createNewBlog_stored _ _ _ _ _ H) as Hposts.
  fold p in Hposts.
  assert (Hin : In p (posts st')).
  { rewrite Hposts. apply in_or_app. right. now left. }
  exists (map (Query.select_summary st')
              (Query.post_findMany (fun _ => true) None st')),
         (map (Query.include_count st')
              (Query.post_findMany (Query.by_author (post_authorId p)) None st')).
  split; [reflexivity|]. split; [|split; [|split; [reflexivity|]]].
  - apply in_map, post_findMany_all_In. now split.
  - rewrite length_map, (Permutation_length (post_findMany_all _ _)), filter_all.
    rewrite Hposts, length_app. simpl. lia.
  - apply in_map, post_findMany_all_In. split; [exact Hin|].
    apply same_id_true. reflexivity.
Qed.

Lemma createNewBlog_then_listed_witness :
  exists every mine,
    getAllBlogs Fixture.ctx0 tt Fixture.st1 = OK (mkResponse 200 None every, Fixture.st1) /\
    In (Query.select_summary Fixture.st1 Fixture.second_post) every /\
    length every = 2 /\
    getBlogByUserId Fixture.ctx0 "u1" Fixture.st1
      = OK (mkResponse 200 (Some "BLOGS FOUND SUCCESSFULLY"%string) mine, Fixture.st1) /\
    In (Query.include_count Fixture.st1 Fixture.second_post) mine.
Proof.
  exact (@createNewBlog_then_listed _ _ _ _ _ _ _ Fixture.ctx0 create_input0).
Defined.

(** X10. After a successful [deleteBlogByBlogId], under every schema, the
    listing of all posts shows the posts there were except the deleted one,
    and neither the listing of a category nor the listing of an author
    shows the deleted post. *)
Theorem deleteBlogByBlogId_then_unlisted sc ctx id st r st' ctx' name userId :
  deleteBlogByBlogId sc ctx id st = OK (r, st') ->
  exists every shown mine,
    getAllBlogs ctx' tt st' = OK (mkResponse 200 None every, st') /\
    Permutation (map Query.sum_id every)
                (filter (fun i => negb (same_id i id)) (map post_id (posts st))) /\
    getBlogsByCategory ctx' name st' = OK (mkResponse 200 None shown, st') /\
    ~ In id (map Query.sum_id shown) /\
    getBlogByUserId ctx' userId st'
      = OK (mkResponse 200 (Some "BLOGS FOUND SUCCESSFULLY"%string) mine, st') /\
    ~ In id (map (fun b => post_id (Query.counted_post b)) mine).
Proof.
  intros H. apply deleteBlogByBlogId_inv in H as [v H].
  assert (Hposts : posts st' = filter (fun q => negb (same_id (post_id q) id)) (posts st)).
  { unfold Prisma.post_delete in H.
    destruct (find _ (posts st)) as [p|]; [|discriminate].
    destruct (Prisma.on_delete (comment_onDelete sc) comment_postId
                Prisma.clear_comment id (comments st));
      destruct (Prisma.on_delete (reaction_onDelete sc) reaction_postId
                  Prisma.clear_reaction id (reactions st));
      destruct (Prisma.on_delete (tag_onDelete sc) tag_postId
                  Prisma.clear_tag id (tags st)); try discriminate.
    now injection H as _ <-. }
  assert (Hgone : forall where_ n q,
             In q (Query.post_findMany where_ n st') -> post_id q <> id).
  { intros where_ n q Hq. apply post_findMany_In in Hq as [Hq _].
    rewrite Hposts in Hq. apply filter_In in Hq as [_ Hq].
    now apply negb_true_iff, same_id_false in Hq. }
  exists (map (Query.select_summary st')
              (Query.post_findMany (fun _ => true) None st')),
         (map (Query.select_summary st')
              (Query.post_findMany (Query.in_category st' name) (Some 10) st')),
         (map (Query.include_count st')
              (Query.post_findMany (Query.by_author userId) None st')).
  split; [reflexivity|]. split; [|split; [reflexivity|split; [|split; [reflexivity|]]]].
  - rewrite map_map. cbn [Query.select_summary Query.sum_id].
    rewrite (Permutation_map post_id (post_findMany_all _ _)), filter_all, Hposts.
    clear. induction (posts st) as [|q l IH]; simpl; [constructor|].
    destruct (negb (same_id (post_id q) id)); simpl; [now constructor | exact IH].
  - rewrite map_map. cbn [Query.select_summary Query.sum_id].
    intros Hin. apply in_map_iff in Hin as (q & Hq & Hin).
    now apply Hgone in Hin.
  - rewrite map_map. cbn [Query.include_count Query.counted_post].
    intros Hin. apply in_map_iff in Hin as (q & Hq & Hin).
    now apply Hgone in Hin.
Qed.

(** X11. A post is deleted once: after a [deleteBlogByBlogId] that went
    through, the same call on the same identifier ends with the client's
    record-not-found error, under every schema and for every caller. *)
Theorem deleteBlogByBlogId_twice sc ctx id st r st' ctx' :
  deleteBlogByBlogId sc ctx id st = OK (r, st') ->
  deleteBlogByBlogId sc ctx' id st' = Err (PrismaError P2025).
Proof.
  intros H. apply deleteBlogByBlogId_inv in H as [v H].
  assert (Hposts : posts st' = filter (fun q => negb (same_id (post_id q) id)) (posts st)).
  { unfold Prisma.post_delete in H.
    destruct (find _ (posts st)) as [p|]; [|discriminate].
    destruct (Prisma.on_delete (comment_onDelete sc) comment_postId
                Prisma.clear_comment id (comments st));
      destruct (Prisma.on_delete (reaction_onDelete sc) reaction_postId
                  Prisma.clear_reaction id (reactions st));
      destruct (Prisma.on_delete (tag_onDelete sc) tag_postId
                  Prisma.clear_tag id (tags st)); try discriminate.
    now injection H as _ <-. }
  unfold deleteBlogByBlogId, bind, Prisma.post_delete.
  rewrite find_post_absent; [reflexivity|].
  intros q Hq. rewrite Hposts in Hq. apply filter_In in Hq as [_ Hq].
  now apply negb_true_iff, same_id_false in Hq.
Qed.

Lemma fixture1_well_formed : well_formed Fixture.st1.
Proof.
  constructor; try (cbn; distinct_strings; fail); rows_point_inside.
Qed.

Lemma deleteBlogByBlogId_well_formed_witness :
  exists r st',
    deleteBlogByBlogId spec_schema Fixture.ctx0 "p1" Fixture.st1 = OK (r, st') /\
    well_formed st' /\
    ~ In "p1"%string (map post_id (posts st')).
Proof.
  eexists; eexists. split; [exact delete_first_post|].
  destruct (@deleteBlogByBlogId_well_formed _ _ _ _ _ _
              fixture1_well_formed delete_first_post) as (H1 & H2 & _).
  split; [exact H1 | exact H2].
Defined.

Lemma deleteBlogByBlogId_then_unlisted_witness :
  exists r st' every,
    deleteBlogByBlogId spec_schema Fixture.ctx0 "p1" Fixture.st1 = OK (r, st') /\
    getAllBlogs Fixture.ctx0 tt st' = OK (mkResponse 200 None every, st') /\
    Permutation (map Query.sum_id every) ["p2"%string].
Proof.
  eexists; eexists.
  destruct (@deleteBlogByBlogId_then_unlisted _ _ _ _ _ _ Fixture.ctx0
              "Tech"%string "u1"%string delete_first_post)
    as (every & shown & mine & H1 & H2 & _).
  exists every. split; [exact delete_first_post|]. split; [exact H1 | exact H2].
Defined.

Lemma deleteBlogByBlogId_twice_witness :
  exists r st',
    deleteBlogByBlogId spec_schema Fixture.ctx0 "p1" Fixture.st1 = OK (r, st') /\
    deleteBlogByBlogId spec_schema Fixture.ctx0 "p1" st' = Err (PrismaError P2025).
Proof.
  eexists; eexists. split; [exact delete_first_post|].
  exact (@deleteBlogByBlogId_twice _ _ _ _ _ _ Fixture.ctx0 delete_first_post).
Defined.

(* ===================================================================== *)
(** ** getBlogById *)
(* ===================================================================== *)


Lemma post_findFirst_none where_ st :
  Detail.post_findFirst where_ st = None <-> filter where_ (posts st) = [].
Proof.
  unfold Detail.post_findFirst, Query.post_findMany, Query.take.
  pose proof (orderBy_perm (filter where_ (posts st))) as Hperm.
  destruct (Query.orderBy_createdAt_desc (filter where_ (posts st))) as [|q l].
  - symmetry in Hperm. apply Permutation_nil in Hperm. rewrite Hperm. simpl. tauto.
  - simpl. split; [discriminate|]. intros Hnil. rewrite Hnil in Hperm.
    now apply Permutation_nil in Hperm.
Qed.

Lemma filter_nil_iff (A : Type) (keep : A -> bool) l :
  filter keep l = [] <-> forall x, In x l -> keep x = false.
Proof.
  induction l as [|a l IH]; simpl; [tauto|].
  destruct (keep a) eqn:Ha.
  - split; [discriminate|]. intros H. specialize (H a (or_introl eq_refl)). congruence.
  - rewrite IH. split; [intros H x [<- | Hx]; auto | auto].
Qed.

Section DetailFacts.

Variables UserView ReactionView : Type.
Variable select_user : User -> UserView.
Variable select_reaction : Store -> Reaction -> ReactionView.


(** X13. After a successful [createNewBlog], [getBlogById] on the new
    post's identifier answers with the new post, whoever asks. *)
Theorem createNewBlog_then_found sc env ctx input st r st' ctx' :
  createNewBlog sc env ctx input st = OK (r, st') ->
  Detail.getBlogById select_user select_reaction ctx'
    (post_id (Prisma.the_post (data r))) st'
  = OK (mkResponse 200 None
          (Some (Detail.include_detail select_user select_reaction st'
                   (Prisma.the_post (data r)))), st').
Proof.
  intros H. pose proof (createNewBlog_stored _ _ _ _ _ H) as Hposts.
  apply createNewBlog_inv in H as [_ H].
  pose proof (post_create_checks _ _ _ _ H) as (_ & Hfresh & _).
  apply post_create_inv in H as (author & st1 & _ & _ & Hp & _).
  assert (Hid : post_id (Prisma.the_post (data r)) = new_post_id env)
    by now rewrite Hp.
  unfold Detail.getBlogById, bind, get_store, ret.
  unfold Detail.post_findFirst, Query.post_findMany.
  rewrite Hposts, filter_app.
  assert (Hold : filter (fun p => same_id (post_id p)
                                    (post_id (Prisma.the_post (data r)))) (posts st) = []).
  { apply filter_nil_iff. intros q Hq. apply same_id_false. intros Heq.
    apply Hfresh. rewrite <- Hid, <- Heq. now apply in_map. }
  rewrite Hold. cbn [filter app].
  unfold same_id at 1. rewrite String.eqb_refl. reflexivity.
Qed.

(** X14. After a successful [deleteBlogByBlogId], under every schema,
    [getBlogById] on the identifier answers with no blog. *)
Theorem deleteBlogByBlogId_then_not_found sc ctx id st r st' ctx' :
  deleteBlogByBlogId sc ctx id st = OK (r, st') ->
  Detail.getBlogById select_user select_reaction ctx' id st'
  = OK (mkResponse 200 None None, st').
Proof.
  intros H. apply deleteBlogByBlogId_inv in H as [v H].
  assert (Hposts : posts st' = filter (fun q => negb (same_id (post_id q) id)) (posts st)).
  { unfold Prisma.post_delete in H.
    destruct (find _ (posts st)) as [p|]; [|discriminate].
    destruct (Prisma.on_delete (comment_onDelete sc) comment_postId
                Prisma.clear_comment id (comments st));
      destruct (Prisma.on_delete (reaction_onDelete sc) reaction_postId
                  Prisma.clear_reaction id (reactions st));
      destruct (Prisma.on_delete (tag_onDelete sc) tag_postId
                  Prisma.clear_tag id (tags st)); try discriminate.
    now injection H as _ <-. }
  unfold Detail.getBlogById, bind, get_store, ret.
  assert (Hnone : Detail.post_findFirst (fun p => same_id (post_id p) id) st' = None).
  { apply post_findFirst_none, filter_nil_iff. intros q Hq.
    rewrite Hposts in Hq. apply filter_In in Hq as [_ Hq].
    now apply negb_true_iff in Hq. }
  now rewrite Hnone.
Qed.

End DetailFacts.

Lemma createNewBlog_then_found_witness :
  Detail.getBlogById user_id (fun _ => reaction_id) Fixture.ctx0 "p2" Fixture.st1
  = OK (mkResponse 200 None
          (Some (Detail.include_detail user_id (fun _ => reaction_id)
                   Fixture.st1 Fixture.second_post)), Fixture.st1).
Proof.
  exact (@createNewBlog_then_found _ _ user_id (fun _ => reaction_id)
           _ _ _ _ _ _ _ Fixture.ctx0 create_input0).
Defined.

Lemma deleteBlogByBlogId_then_not_found_witness :
  exists r st',
    deleteBlogByBlogId spec_schema Fixture.ctx0 "p1" Fixture.st1 = OK (r, st') /\
    Detail.getBlogById user_id (fun _ => reaction_id) Fixture.ctx0 "p1" st'
    = OK (mkResponse 200 None None, st').
Proof.
  eexists; eexists. split; [exact delete_first_post|].
  exact (@deleteBlogByBlogId_then_not_found _ _ user_id (fun _ => reaction_id)
           _ _ _ _ _ _ Fixture.ctx0 delete_first_post).
Defined.

(* ===================================================================== *)
(** ** More on the listings and on the new post *)
(* ===================================================================== *)

(** X15. In a store whose category identifiers identify rows, every entry
    [getBlogsByCategory] answers with carries a category row of the store
    with the name asked for and is an entry of [getAllBlogs] too; there are
    as many entries as the store has posts of that category, up to 10, and
    when the store has at most 10 posts of that category each of them is an
    entry. *)
Theorem getBlogsByCategory_entries ctx name st :
  NoDup (map category_id (categories st)) ->
  exists shown every,
    getBlogsByCategory ctx name st = OK (mkResponse 200 None shown, st) /\
    getAllBlogs ctx tt st = OK (mkResponse 200 None every, st) /\
    (forall b, In b shown ->
       exists c, Query.sum_category b = Some c /\ category_name c = name /\
                 In c (categories st)) /\
    incl shown every /\
    length shown
      = Nat.min 10 (length (filter (of_category st name) (posts st))) /\
    (length (filter (of_category st name) (posts st)) <= 10 ->
     forall p, In p (posts st) ->
       (exists c, In c (categories st) /\ category_id c = post_categoryId p /\
                  category_name c = name) ->
       In (Query.select_summary st p) shown).
Proof.
  intros Hnd.
  exists (map (Query.select_summary st)
              (Query.post_findMany (Query.in_category st name) (Some 10) st)),
         (map (Query.select_summary st)
              (Query.post_findMany (fun _ => true) None st)).
  assert (Hlen : length (Query.post_findMany (Query.in_category st name) (Some 10) st)
                 = Nat.min 10 (length (filter (of_category st name) (posts st)))).
  { unfold Query.post_findMany, Query.take. rewrite length_firstn.
    rewrite <- (Permutation_length (orderBy_perm _)).
    now rewrite (@filter_in_category st name Hnd). }
  split; [reflexivity|]. split; [reflexivity|].
  split; [|split; [|split]].
  - intros b Hb. apply in_map_iff in Hb as (p & <- & Hp).
    apply post_findMany_In in Hp as [_ Hcat].
    unfold Query.in_category in Hcat. cbn [Query.select_summary Query.sum_category].
    destruct (Query.category_of st p) as [c|] eqn:Hc; [|discriminate].
    exists c. split; [reflexivity|]. split; [now apply String.eqb_eq|].
    unfold Query.category_of in Hc. now apply find_some in Hc.
  - intros b Hb. apply in_map_iff in Hb as (p & <- & Hp).
    apply post_findMany_In in Hp as [Hp _].
    apply in_map, post_findMany_all_In. now split.
  - now rewrite length_map.
  - intros Hfew p Hp Hcat. apply in_map.
    apply of_category_spec in Hcat.
    rewrite <- (@in_category_of_category st name p Hnd) in Hcat.
    unfold Query.post_findMany, Query.take.
    rewrite firstn_all2.
    + eapply Permutation_in; [apply orderBy_perm|]. apply filter_In. now split.
    + rewrite <- (Permutation_length (orderBy_perm _)).
      now rewrite (@filter_in_category st name Hnd).
Qed.

(** On the store with two posts of the category: both are entries. *)
Lemma getBlogsByCategory_entries_witness :
  exists shown,
    getBlogsByCategory Fixture.ctx0 "Tech" Fixture.st1
      = OK (mkResponse 200 None shown, Fixture.st1) /\
    length shown = 2 /\
    In (Query.select_summary Fixture.st1 Fixture.second_post) shown.
Proof.
  assert (Hnd : NoDup (map category_id (categories Fixture.st1)))
    by (repeat constructor; intros []).
  destruct (@getBlogsByCategory_entries Fixture.ctx0 "Tech"%string Fixture.st1 Hnd)
    as (shown & every & Hrun & _ & _ & _ & Hlen & Hall).
  exists shown. split; [exact Hrun|]. split; [exact Hlen|].
  apply Hall.
  - apply Nat.leb_le. reflexivity.
  - right; now left.
  - exists Fixture.tech. repeat split. now left.
Defined.

(** X16. In a well-formed store, the post a successful [createNewBlog] has
    made starts with no comment and no reaction, and the listing of its
    category shows it, unless that listing is full of 10 posts none of
    which is older. *)
Theorem createNewBlog_new_post sc env ctx input st r st' ctx' :
  well_formed st ->
  createNewBlog sc env ctx input st = OK (r, st') ->
  let p := Prisma.the_post (data r) in
  Query.count_of st' p = Query.mkCount 0 0 /\
  exists shown,
    getBlogsByCategory ctx' (category input) st' = OK (mkResponse 200 None shown, st') /\
    (In (Query.select_summary st' p) shown \/
     (length shown = 10 /\
      forall b, In b shown -> (post_createdAt p <= Query.sum_createdAt b)%Z)).
Proof.
  intros Hwf H p.
  pose proof (createNewBlog_stored _ _ _ _ _ H) as Hposts. fold p in Hposts.
  apply createNewBlog_inv in H as [_ H].
  pose proof (@post_create_well_formed _ _ _ _ _ _ Hwf H) as Hwf'.
  pose proof (post_create_checks _ _ _ _ H) as (_ & Hfresh & _).
  apply post_create_inv in H as (author & st1 & Hc & _ & Hp & Hst').
  fold p in Hp. cbn [Prisma.data_category] in Hc.
  assert (Hid : post_id p = new_post_id env) by now rewrite Hp.
  split.
  - assert (Hnone : forall (A : Type) (fk : A -> option Id) (rows : list A),
               (forall x i, In x rows -> fk x = Some i -> In i (map post_id (posts st))) ->
               filter (fun x => points_to (fk x) (post_id p)) rows = []).
    { intros A fk rows Hrows. apply filter_nil_iff. intros x Hx.
      destruct (points_to (fk x) (post_id p)) eqn:Hpt; [|reflexivity].
      apply points_to_true in Hpt. exfalso. apply Hfresh. rewrite <- Hid.
      eapply Hrows; eassumption. }
    unfold Query.count_of. subst st'. cbn [comments reactions].
    rewrite (Hnone _ comment_postId), (Hnone _ reaction_postId);
      [reflexivity | apply Hwf | apply Hwf].
  - assert (Hcat : Query.in_category st' (category input) p = true).
    { unfold Query.in_category.
      assert (Hcin : In (Prisma.the_category (data r)) (categories st')).
      { subst st'. cbn [categories].
        apply category_connectOrCreate_inv in Hc as [_ [[Hfind ->] | [_ ->]]].
        - now apply find_some_name in Hfind.
        - apply in_or_app. right. now left. }
      rewrite (@category_of_row st' p (Prisma.the_category (data r)));
        [| apply Hwf' | exact Hcin | now rewrite Hp].
      apply category_connectOrCreate_inv in Hc as [-> _]. apply String.eqb_refl. }
    destruct (post_findMany_spec (Query.in_category st' (category input)) (Some 10) st')
      as (rest & Hperm & Hsorted & _ & Hfull).
    exists (map (Query.select_summary st')
                (Query.post_findMany (Query.in_category st' (category input))
                                     (Some 10) st')).
    split; [reflexivity|].
    assert (Hp_in : In p (Query.post_findMany (Query.in_category st' (category input))
                                              (Some 10) st' ++ rest)).
    { eapply Permutation_in; [symmetry; exact Hperm|].
      apply filter_In. split; [|exact Hcat].
      rewrite Hposts. apply in_or_app. right. now left. }
    apply in_app_or in Hp_in as [Hshown | Hrest].
    + left. now apply in_map.
    + right. split.
      * rewrite length_map. apply Hfull. intros ->. contradiction.
      * intros b Hb. apply in_map_iff in Hb as (q & <- & Hq).
        exact (@sorted_app_not_older _ _ _ _ Hsorted Hq Hrest).
Qed.

Lemma createNewBlog_new_post_witness :
  Query.count_of Fixture.st1 Fixture.second_post = Query.mkCount 0 0.
Proof.
  exact (proj1 (@createNewBlog_new_post _ _ _ _ _ _ _ Fixture.ctx0
                  fixture_well_formed create_input0)).
Defined.

(** X17. [ImageContainer] never hands an empty source to the picture it
    shows, whatever its state and its props. *)
Theorem ImageContainer_src_not_empty (s : ImageContainer.State)
    (p : ImageContainer.Props) :
  ImageContainer.src_of (ImageContainer.render s p) <> ""%string.
Proof.
  unfold ImageContainer.render.
  destruct s; cbn [ImageContainer.src_of]; [discriminate|].
  unfold Js.or_else, Js.truthy_string.
  destruct (ImageContainer.image p) as [url|]; [|discriminate].
  destruct (String.eqb_spec url ""); simpl; [discriminate | assumption].
Qed.
